(** * Mamdani fuzzy inference of [app.js]: embedding and verification

    The inference pipeline of [app.js] (triangular membership functions,
    max-min rule evaluation, sampled aggregation, centre-of-gravity
    defuzzification) is embedded as executable Rocq functions, and so are
    the points it plots ([generateMfPoints]) and the datasets of its
    charts ([createMfChart] and the chart writes of [update]).

    Modelling conventions.
    - A JavaScript number is modelled as an exact rational ([Q]): the
      model has no rounding, overflow, underflow or NaN, so a theorem about
      it speaks of the program wherever the property rests on comparisons,
      min, max or exactly representable values.  Equality of numbers is
      [Qeq] (written [==]).  Where rounding or overflow decides a property,
      the code is also run on binary64 numbers ([triangleMf64]) and
      embedded with an explicit rounding function ([triangleMfRounded]).
    - A division whose divisor is zero and the read of a property that an
      object does not have are flagged in an error monad, so that their
      absence can be stated and proved.  Overflow is not flagged.
    - An object literal used as a map is an association list in insertion
      order, which is the order in which [for ... in] and [Object.keys]
      visit keys that are not integer-like; the tables of the program have
      no integer-like key.
    - The [for] loop over the output domain is modelled with fuel; the
      theorems show that 122 units of fuel (121 iterations and the final
      failing test) always suffice. *)

From Stdlib Require Import ZArith QArith Qminmax Lqa Lia List String Bool.
From Stdlib Require Import Sorted Qabs.
From Stdlib Require Import Floats.PrimFloat Floats.SpecFloat Floats.FloatOps.
Import ListNotations.

Local Open Scope string_scope.
Local Open Scope Q_scope.

(** ** Numbers and their comparisons *)

Definition number := Q.

Definition leb (x y : number) : bool := Qle_bool x y.
Definition ltb (x y : number) : bool := negb (Qle_bool y x).
Definition geb (x y : number) : bool := leb y x.
Definition gtb (x y : number) : bool := ltb y x.
Definition strictEq (x y : number) : bool := Qeq_bool x y.

Infix "<=?" := leb (at level 70, no associativity) : Q_scope.
Infix "<?" := ltb (at level 70, no associativity) : Q_scope.
Infix ">=?" := geb (at level 70, no associativity) : Q_scope.
Infix ">?" := gtb (at level 70, no associativity) : Q_scope.

(** ** The error monad *)

Inductive error : Type :=
| DivisionByZero
| UndefinedProperty (key : string)
| OutOfFuel.

Inductive result (A : Type) : Type :=
| Ok (a : A)
| Err (e : error).

Arguments Ok {A} a.
Arguments Err {A} e.

Definition bind {A B : Type} (m : result A) (k : A -> result B) : result B :=
  match m with
  | Ok a => k a
  | Err e => Err e
  end.

Notation "x <- m ;; k" := (bind m (fun x => k))
  (at level 61, m at next level, right associativity).

Fixpoint foldM {A S : Type} (f : A -> S -> result S) (l : list A) (s : S)
  : result S :=
  match l with
  | [] => Ok s
  | a :: l' => s' <- f a s ;; foldM f l' s'
  end.

(** [x / y], flagged when the divisor is zero. *)
Definition div (x y : number) : result number :=
  if strictEq y 0 then Err DivisionByZero else Ok (x / y).

(** ** Objects used as maps *)

Definition object (V : Type) := list (string * V).

Definition keys {V : Type} (o : object V) : list string := map fst o.

Fixpoint lookup {V : Type} (o : object V) (k : string) : option V :=
  match o with
  | [] => None
  | (k', v) :: o' => if String.eqb k' k then Some v else lookup o' k
  end.

(** [o[k]] *)
Definition get {V : Type} (o : object V) (k : string) : result V :=
  match lookup o k with
  | Some v => Ok v
  | None => Err (UndefinedProperty k)
  end.

(** [o[k] = v]: an existing key keeps its position, a new key is appended. *)
Fixpoint assign {V : Type} (o : object V) (k : string) (v : V) : object V :=
  match o with
  | [] => [(k, v)]
  | (k', v') :: o' =>
      if String.eqb k' k then (k', v) :: o' else (k', v') :: assign o' k v
  end.

(** ** Configuration (app.js, lines 12-37) *)

Definition Triangle := (number * number * number)%type.

Definition dirtMf : object Triangle :=
  [ ("SD", (-100, 0, 100));
    ("MD", (0, 100, 200));
    ("LD", (100, 200, 300)) ].

Definition greaseMf : object Triangle :=
  [ ("NG", (-100, 0, 100));
    ("MG", (0, 100, 200));
    ("LG", (100, 200, 300)) ].

Definition timeMf : object Triangle :=
  [ ("VS", (-10, 0, 10));
    ("S", (0, 10, 25));
    ("M", (10, 25, 40));
    ("L", (25, 40, 60));
    ("VL", (40, 60, 70)) ].

Definition rules : object (object string) :=
  [ ("SD", [ ("NG", "VS"); ("MG", "S"); ("LG", "M") ]);
    ("MD", [ ("NG", "S"); ("MG", "M"); ("LG", "L") ]);
    ("LD", [ ("NG", "M"); ("MG", "L"); ("LG", "VL") ]) ].

(** ** triangleMf (app.js, lines 47-52) *)

Definition triangleMf (x : number) (points : Triangle) : result number :=
  let '(a, b, c) := points in
  if (x <=? a) || (x >=? c) then Ok 0
  else if (x >? a) && (x <=? b) then div (x - a) (b - a)
  else if (x >? b) && (x <? c) then div (c - x) (c - b)
  else Ok 0.

(** The branch of [triangleMf] that is taken, for stating which of its
    divisions can be reached. *)
Inductive branch : Type := Outside | Rising | Falling | Fallthrough.

Definition triangleBranch (x : number) (points : Triangle) : branch :=
  let '(a, b, c) := points in
  if (x <=? a) || (x >=? c) then Outside
  else if (x >? a) && (x <=? b) then Rising
  else if (x >? b) && (x <? c) then Falling
  else Fallthrough.

(** ** update (app.js, lines 151-222)

    The body of [update] is split at its four numbered comments.  The
    writes to the page and to the charts are not modelled; the values they
    display are returned in a record. *)

Record point : Type := { x : number; y : number }.

Record inference : Type := {
  dirtDegrees : object number;
  greaseDegrees : object number;
  outputActivation : object number;
  aggregatedPoints : list point;
  cog : number
}.

(** 1. Fuzzification (lines 159-168). *)
Definition fuzzifyDirt (dirtValue : number) : result (object number) :=
  tSD <- get dirtMf "SD" ;; dSD <- triangleMf dirtValue tSD ;;
  tMD <- get dirtMf "MD" ;; dMD <- triangleMf dirtValue tMD ;;
  tLD <- get dirtMf "LD" ;; dLD <- triangleMf dirtValue tLD ;;
  Ok [ ("SD", dSD); ("MD", dMD); ("LD", dLD) ].

Definition fuzzifyGrease (greaseValue : number) : result (object number) :=
  tNG <- get greaseMf "NG" ;; dNG <- triangleMf greaseValue tNG ;;
  tMG <- get greaseMf "MG" ;; dMG <- triangleMf greaseValue tMG ;;
  tLG <- get greaseMf "LG" ;; dLG <- triangleMf greaseValue tLG ;;
  Ok [ ("NG", dNG); ("MG", dMG); ("LG", dLG) ].

(** 2. Rule evaluation (lines 172-181).  [fireRule] is the body of the
    inner loop. *)
Definition fireRule (dirtDegrees greaseDegrees : object number)
    (dirtSet greaseSet : string) (outputActivation : object number)
  : result (object number) :=
  row <- get rules dirtSet ;;
  ruleOutputSet <- get row greaseSet ;;
  d <- get dirtDegrees dirtSet ;;
  g <- get greaseDegrees greaseSet ;;
  let strength := Qmin d g in
  current <- get outputActivation ruleOutputSet ;;
  if strength >? current
  then Ok (assign outputActivation ruleOutputSet strength)
  else Ok outputActivation.

Definition evaluateRules (dirtDegrees greaseDegrees : object number)
  : result (object number) :=
  foldM (fun dirtSet outputActivation =>
           row <- get rules dirtSet ;;
           foldM (fireRule dirtDegrees greaseDegrees dirtSet)
                 (keys row) outputActivation)
        (keys rules)
        [ ("VS", 0); ("S", 0); ("M", 0); ("L", 0); ("VL", 0) ].

(** 3. Aggregation (lines 184-197).  [clip] is the body of the inner loop,
    [maxDegreeAt] the inner loop, [sampleLoop] the outer loop. *)
Definition samples : number := 120.

Definition clip (outputActivation : object number) (t : number)
    (timeSet : string) (maxDegree : number) : result number :=
  activationLevel <- get outputActivation timeSet ;;
  points <- get timeMf timeSet ;;
  mfDegree <- triangleMf t points ;;
  let degree := Qmin activationLevel mfDegree in
  if degree >? maxDegree then Ok degree else Ok maxDegree.

Definition maxDegreeAt (outputActivation : object number) (t : number)
  : result number :=
  foldM (clip outputActivation t) (keys outputActivation) 0.

Fixpoint sampleLoop (fuel : nat) (outputActivation : object number)
    (t : number) (aggregatedPoints : list point) : result (list point) :=
  match fuel with
  | O => Err OutOfFuel
  | S fuel' =>
      if t <=? 60 then
        maxDegree <- maxDegreeAt outputActivation t ;;
        step <- div 60 samples ;;
        sampleLoop fuel' outputActivation (t + step)
                   (aggregatedPoints ++ [ {| x := t; y := maxDegree |} ])
      else Ok aggregatedPoints
  end.

Definition aggregate (fuel : nat) (outputActivation : object number)
  : result (list point) :=
  sampleLoop fuel outputActivation 0 [].

(** 4. Defuzzification (lines 200-207).  [accumulate] is the callback of
    [forEach] acting on the pair (numerator, denominator). *)
Definition accumulate (acc : number * number) (p : point) : number * number :=
  let '(numerator, denominator) := acc in
  (numerator + x p * y p, denominator + y p).

Definition sums (aggregatedPoints : list point) : number * number :=
  fold_left accumulate aggregatedPoints (0, 0).

Definition defuzzify (aggregatedPoints : list point) : result number :=
  let '(numerator, denominator) := sums aggregatedPoints in
  if strictEq denominator 0 then Ok 30 else div numerator denominator.

Definition update (fuel : nat) (dirtValue greaseValue : number)
  : result inference :=
  dd <- fuzzifyDirt dirtValue ;;
  gd <- fuzzifyGrease greaseValue ;;
  act <- evaluateRules dd gd ;;
  pts <- aggregate fuel act ;;
  out <- defuzzify pts ;;
  Ok {| dirtDegrees := dd; greaseDegrees := gd; outputActivation := act;
        aggregatedPoints := pts; cog := out |}.

(** ** Specification vocabulary *)

(** The value of the triangular membership function as a plain number:
    the first case of the contract that applies. *)
Definition triangleValue (x : number) (points : Triangle) : number :=
  let '(a, b, c) := points in
  if (x <=? a) || (x >=? c) then 0
  else if x <=? b then (x - a) / (b - a)
  else (c - x) / (c - b).

(** The update [if (s > current) current = s] of both inner loops. *)
Definition keepMax (s current : number) : number :=
  if s >? current then s else current.

Definition runningMax (l : list number) (start : number) : number :=
  fold_left (fun current s => keepMax s current) l start.

(** [v] is the maximum of [l], taken as 0 when [l] is empty. *)
Definition maximumOf (l : list number) (v : number) : Prop :=
  match l with
  | [] => v == 0
  | _ :: _ => Exists (fun s => s == v) l /\ Forall (fun s => s <= v) l
  end.

(** A mapping from the given term names, in order, to degrees in [0,1]. *)
Definition degreeMapping (names : list string) (o : object number) : Prop :=
  keys o = names /\ Forall (fun kv => 0 <= snd kv <= 1) o.

Definition allZero (o : object number) : Prop :=
  Forall (fun kv => snd kv == 0) o.

Definition dirtTerms : list string := ["SD"; "MD"; "LD"].
Definition greaseTerms : list string := ["NG"; "MG"; "LG"].
Definition timeTerms : list string := ["VS"; "S"; "M"; "L"; "VL"].

(** The rule table as a list of (antecedent 1, antecedent 2, consequent). *)
Definition ruleList : list (string * string * string) :=
  flat_map (fun entry =>
              map (fun cell => (fst entry, fst cell, snd cell)) (snd entry))
           rules.

(** The firing strengths min(degree 1, degree 2) of the rules whose
    consequent is [term]. *)
Definition strengthsFor (dirtDegrees greaseDegrees : object number)
    (term : string) : list number :=
  flat_map (fun r =>
              let '(d, g, o) := r in
              if String.eqb o term then
                match lookup dirtDegrees d, lookup greaseDegrees g with
                | Some dv, Some gv => [Qmin dv gv]
                | _, _ => []
                end
              else [])
           ruleList.

Fixpoint mapM {A B : Type} (f : A -> result B) (l : list A)
  : result (list B) :=
  match l with
  | [] => Ok []
  | a :: l' => b <- f a ;; bs <- mapM f l' ;; Ok (b :: bs)
  end.

(** The clipped contributions min(activation[term], triangleMf(t, term))
    of all output terms at the point [t]. *)
Definition clippedAt (activation : object number) (t : number)
  : result (list number) :=
  mapM (fun entry =>
          a <- get activation (fst entry) ;;
          m <- triangleMf t (snd entry) ;;
          Ok (Qmin a m))
       timeMf.

(** Plain sums over the sample points. *)
Definition Qsum (l : list number) : number := fold_right Qplus 0 l.

Definition numeratorOf (pts : list point) : number :=
  Qsum (map (fun p => x p * y p) pts).

Definition denominatorOf (pts : list point) : number :=
  Qsum (map y pts).

(** The sample positions [t], [t + step], ... visited by [count]
    iterations of the outer loop. *)
Fixpoint sampleTimes (count : nat) (t step : number) : list number :=
  match count with
  | O => []
  | S n => t :: sampleTimes n (t + step) step
  end.

(** The value of the loop variable after [count] iterations. *)
Fixpoint timeAfter (count : nat) (t step : number) : number :=
  match count with
  | O => t
  | S n => timeAfter n (t + step) step
  end.

(** The 121 sample positions of the reference configuration. *)
Definition referenceTimes : list number := sampleTimes 121 0 (60 / samples).

Definition surfaceOf (f : number -> number) (ts : list number) : list point :=
  map (fun t => {| x := t; y := f t |}) ts.

(** The clipped contributions and the aggregated degree at [t] as plain
    numbers. *)
Definition clippedValues (activation : object number) (t : number)
  : list number :=
  map (fun entry =>
         match lookup activation (fst entry) with
         | Some a => Qmin a (triangleValue t (snd entry))
         | None => 0
         end)
      timeMf.

Definition aggregatedDegree (activation : object number) (t : number)
  : number :=
  runningMax (clippedValues activation t) 0.

(** A point with both coordinates in lowest terms. *)
Definition reducePoint (p : point) : point :=
  {| x := Qred (x p); y := Qred (y p) |}.

(** The result of [defuzzify] as a plain number. *)
Definition centroid (pts : list point) : number :=
  let '(numerator, denominator) := sums pts in
  if strictEq denominator 0 then 30 else numerator / denominator.

(** The result of fuzzification as a plain object. *)
Definition degreesOf (mf : object Triangle) (v : number) : object number :=
  map (fun entry => (fst entry, triangleValue v (snd entry))) mf.

(** The result of rule evaluation as a plain object. *)
Definition activationOf (dirtDegrees greaseDegrees : object number)
  : object number :=
  map (fun term =>
         (term, runningMax (strengthsFor dirtDegrees greaseDegrees term) 0))
      timeTerms.

(** The result of [update] as a plain record. *)
Definition inferenceOf (dirtValue greaseValue : number) : inference :=
  let dd := degreesOf dirtMf dirtValue in
  let gd := degreesOf greaseMf greaseValue in
  let act := activationOf dd gd in
  let pts := surfaceOf (aggregatedDegree act) referenceTimes in
  {| dirtDegrees := dd; greaseDegrees := gd; outputActivation := act;
     aggregatedPoints := pts; cog := centroid pts |}.

(** The contract of [triangleMf] read as three independent cases. *)
Definition contractAsStated (x : number) (points : Triangle) : Prop :=
  let '(a, b, c) := points in
  a <= b /\ b <= c ->
  (x <= a \/ c <= x -> triangleMf x points = Ok 0) /\
  (a < x /\ x <= b ->
   exists r, triangleMf x points = Ok r /\ r == (x - a) / (b - a)) /\
  (b < x /\ x < c ->
   exists r, triangleMf x points = Ok r /\ r == (c - x) / (c - b)).

(** Two objects with the same keys in the same order and equal values. *)
Definition sameObject (o o' : object number) : Prop :=
  Forall2 (fun kv kv' => fst kv = fst kv' /\ snd kv == snd kv') o o'.

(** ** generateMfPoints (app.js, lines 61-72) *)

(** A [Set] of numbers: its elements in insertion order; adding a value
    the set already has leaves it as it is. *)
Definition NumberSet := list number.

Definition setHas (s : NumberSet) (v : number) : bool :=
  existsb (fun u => strictEq u v) s.

Definition setAdd (s : NumberSet) (v : number) : NumberSet :=
  if setHas s v then s else (s ++ [v])%list.

Definition newSet (values : list number) : NumberSet :=
  fold_left setAdd values [].

(** [Array.prototype.sort] with a comparison function is a stable sort,
    modelled by insertion: [p] is placed before the first [q] with
    compareFn(p, q) <= 0. *)
Fixpoint insertSorted {A : Type} (compareFn : A -> A -> number) (p : A)
    (l : list A) : list A :=
  match l with
  | [] => [p]
  | q :: l' =>
      if compareFn p q <=? 0 then p :: q :: l'
      else q :: insertSorted compareFn p l'
  end.

Definition sort {A : Type} (compareFn : A -> A -> number) (l : list A)
  : list A :=
  fold_right (insertSorted compareFn) [] l.

Definition generateMfPoints (points : Triangle) (minX maxX : number)
  : result (list point) :=
  let '(a, b, c) := points in
  let xCoords := newSet [minX; maxX] in
  let xCoords :=
    if (a >=? minX) && (a <=? maxX) then setAdd xCoords a else xCoords in
  let xCoords :=
    if (b >=? minX) && (b <=? maxX) then setAdd xCoords b else xCoords in
  let xCoords :=
    if (c >=? minX) && (c <=? maxX) then setAdd xCoords c else xCoords in
  mapped <- mapM (fun xc =>
                    yc <- triangleMf xc (a, b, c) ;;
                    Ok {| x := xc; y := yc |})
                 xCoords ;;
  Ok (sort (fun p1 p2 => x p1 - x p2) mapped).

(** ** Charts (app.js, lines 75-148 and 211-221)

    A chart is modelled by the configuration it is constructed from: its
    datasets (label, data and line colour; the constant styling fields
    are left out) and the ranges of its two axes.  Redrawing is not
    modelled. *)

Record dataset : Type := {
  label : string;
  data : list point;
  borderColor : option string
}.

Record axes : Type := {
  xMin : number; xMax : number;
  yMin : number; yMax : number
}.

Record chart : Type := { datasets : list dataset; options : axes }.

Definition chartOptions (min max : number) : axes :=
  {| xMin := min; xMax := max; yMin := 0; yMax := 1.1 |}.

Definition lineColors : list string :=
  ["#36a2eb"; "#ff6384"; "#4bc0c0"; "#ff9f40"; "#9966ff"].

(** [Array.prototype.map] with a callback that also takes the index. *)
Fixpoint mapiM {A B : Type} (f : A -> nat -> result B) (l : list A) (i : nat)
  : result (list B) :=
  match l with
  | [] => Ok []
  | a :: l' => b <- f a i ;; bs <- mapiM f l' (S i) ;; Ok (b :: bs)
  end.

Definition createMfChart (mfData : object Triangle)
    (domain : number * number) (colors : list string) : result chart :=
  curves <- mapiM (fun key i =>
                     points <- get mfData key ;;
                     pts <- generateMfPoints points (fst domain) (snd domain) ;;
                     Ok {| label := key; data := pts;
                           borderColor :=
                             nth_error colors (i mod List.length colors) |})
                  (keys mfData) 0%nat ;;
  Ok {| datasets :=
          (curves ++ [ {| label := "Current Value"; data := [];
                          borderColor := Some "#ff0000" |} ])%list;
        options := chartOptions (fst domain) (snd domain) |}.

Record charts : Type := {
  dirtChart : chart;
  greaseChart : chart;
  timeChart : chart;
  resultChart : chart
}.

(** Lines 118-148. *)
Definition createCharts : result charts :=
  dc <- createMfChart dirtMf (0, 200) lineColors ;;
  gc <- createMfChart greaseMf (0, 200) lineColors ;;
  tc <- createMfChart timeMf (0, 60) lineColors ;;
  Ok {| dirtChart := dc; greaseChart := gc; timeChart := tc;
        resultChart :=
          {| datasets :=
               [ {| label := "聚合輸出函數"; data := [];
                    borderColor := Some "#007bff" |};
                 {| label := "重心 (COG)"; data := [];
                    borderColor := Some "#dc3545" |} ];
             options := chartOptions 0 60 |} |}.

(** [chart.data.datasets[i].data = d]; flagged when there is no dataset
    number [i]. *)
Definition withData (old : dataset) (d : list point) : dataset :=
  {| label := label old; data := d; borderColor := borderColor old |}.

Definition setData (c : chart) (i : nat) (d : list point) : result chart :=
  match nth_error (datasets c) i with
  | None => Err (UndefinedProperty "data")
  | Some old =>
      Ok {| datasets :=
              (firstn i (datasets c) ++ withData old d
               :: skipn (S i) (datasets c))%list;
            options := options c |}
  end.

(** The vertical line drawn at a value. *)
Definition markerLine (v : number) : list point :=
  [ {| x := v; y := 0 |}; {| x := v; y := 1.1 |} ].

(** Lines 211-221. *)
Definition updateCharts (c : charts) (dirtValue greaseValue : number)
    (aggregatedPoints : list point) (cog : number) : result charts :=
  dc <- setData (dirtChart c) 3 (markerLine dirtValue) ;;
  gc <- setData (greaseChart c) 3 (markerLine greaseValue) ;;
  rc <- setData (resultChart c) 0 aggregatedPoints ;;
  rc <- setData rc 1 (markerLine cog) ;;
  Ok {| dirtChart := dc; greaseChart := gc; timeChart := timeChart c;
        resultChart := rc |}.

(** [update] together with its writes to the charts. *)
Definition updateAndDraw (fuel : nat) (c : charts)
    (dirtValue greaseValue : number) : result (inference * charts) :=
  r <- update fuel dirtValue greaseValue ;;
  c' <- updateCharts c dirtValue greaseValue (aggregatedPoints r) (cog r) ;;
  Ok (r, c').

(** The x-coordinates that [generateMfPoints] may plot: the two ends of
    the domain and the corners of the triangle that lie in the domain. *)
Definition isCoordinate (points : Triangle) (minX maxX v : number) : Prop :=
  let '(a, b, c) := points in
  v = minX \/ v = maxX \/
  (v = a /\ minX <= a /\ a <= maxX) \/
  (v = b /\ minX <= b /\ b <= maxX) \/
  (v = c /\ minX <= c /\ c <= maxX).

(** No two numbers of the list are equal. *)
Definition distinct (l : list number) : Prop :=
  StronglySorted (fun u v => ~ u == v) l.

(** The points are in strictly increasing order of x. *)
Definition increasing (pts : list point) : Prop :=
  StronglySorted (fun p q => x p < x q) pts.

(** ** The same code on binary64 numbers

    [triangleMf] and the fuzzification of one input evaluated on IEEE
    doubles (primitive floats), with their rounding, overflow and NaN; a
    comparison with NaN is false.  Used to run the program at concrete
    doubles. *)

Definition Triangle64 := (float * float * float)%type.

Definition triangleMf64 (x : float) (points : Triangle64) : float :=
  let '(a, b, c) := points in
  if PrimFloat.leb x a || PrimFloat.leb c x then 0%float
  else if PrimFloat.ltb a x && PrimFloat.leb x b
       then PrimFloat.div (PrimFloat.sub x a) (PrimFloat.sub b a)
  else if PrimFloat.ltb b x && PrimFloat.ltb x c
       then PrimFloat.div (PrimFloat.sub c x) (PrimFloat.sub c b)
  else 0%float.

Definition triangleBranch64 (x : float) (points : Triangle64) : branch :=
  let '(a, b, c) := points in
  if PrimFloat.leb x a || PrimFloat.leb c x then Outside
  else if PrimFloat.ltb a x && PrimFloat.leb x b then Rising
  else if PrimFloat.ltb b x && PrimFloat.ltb x c then Falling
  else Fallthrough.

(** The three degrees of one input (lines 159-163 and 164-168: both
    variables have the same three triangles). *)
Definition degrees64 (v : float) : float * float * float :=
  (triangleMf64 v (-100, 0, 100)%float,
   triangleMf64 v (0, 100, 200)%float,
   triangleMf64 v (100, 200, 300)%float).

(** The rational number that a finite double is. *)
Definition exactValue (f : float) : number :=
  match Prim2SF f with
  | S754_finite s m e =>
      (if s then -1 else 1) * inject_Z (Zpos m) * Qpower 2 e
  | _ => 0
  end.

Definition inUnitInterval64 (r : float) : bool :=
  PrimFloat.leb 0 r && PrimFloat.leb r 1.



(** ** The same code with an explicit rounding function

    Every subtraction and division of [triangleMf] rounds its exact
    result with [fl].  [binary64Rounding] is what the proofs use of
    rounding to nearest in binary64 below the overflow threshold: the
    error is at most 2^-53 relative plus 2^-1075 absolute, and integers
    up to 2^53 are exact. *)

Definition unitRoundoff : number := Eval vm_compute in 1 # (2 ^ 53).







(** * Proofs *)

(** ** Comparisons *)

Lemma leb_reflect (p q : number) : reflect (p <= q) (p <=? q).
Proof.
  unfold leb. destruct (Qle_bool p q) eqn:E; constructor.
  - now apply Qle_bool_iff.
  - intro H. apply Qle_bool_iff in H. congruence.
Qed.

Lemma ltb_reflect (p q : number) : reflect (p < q) (p <? q).
Proof.
  unfold ltb. destruct (Qle_bool q p) eqn:E; constructor.
  - apply Qle_bool_iff in E. lra.
  - apply Qnot_le_lt. intro H. apply Qle_bool_iff in H. congruence.
Qed.

Lemma geb_reflect (p q : number) : reflect (q <= p) (p >=? q).
Proof. apply leb_reflect. Qed.

Lemma gtb_reflect (p q : number) : reflect (q < p) (p >? q).
Proof. apply ltb_reflect. Qed.

Lemma strictEq_reflect (p q : number) : reflect (p == q) (strictEq p q).
Proof.
  unfold strictEq. destruct (Qeq_bool p q) eqn:E; constructor.
  - now apply Qeq_bool_iff.
  - now apply Qeq_bool_neq.
Qed.

(** Case analysis on every comparison of the goal. *)
Ltac compare_all :=
  repeat match goal with
    | |- context [?p >=? ?q] => destruct (geb_reflect p q)
    | |- context [?p >? ?q] => destruct (gtb_reflect p q)
    | |- context [?p <=? ?q] => destruct (leb_reflect p q)
    | |- context [?p <? ?q] => destruct (ltb_reflect p q)
    | |- context [strictEq ?p ?q] => destruct (strictEq_reflect p q)
    end.

(** ** The triangular membership function *)

Lemma div_ok (p q : number) : ~ q == 0 -> div p q = Ok (p / q).
Proof.
  intro H. unfold div. destruct (strictEq_reflect q 0); [contradiction | reflexivity].
Qed.

Lemma triangleMf_value (x : number) (points : Triangle) :
  triangleMf x points = Ok (triangleValue x points).
Proof.
  destruct points as [[a b] c]. unfold triangleMf, triangleValue.
  compare_all; simpl; try reflexivity; try lra.
  - apply div_ok. lra.
  - apply div_ok. lra.
Qed.

Lemma triangleValue_range (x : number) (points : Triangle) :
  0 <= triangleValue x points <= 1.
Proof.
  destruct points as [[a b] c]. unfold triangleValue.
  compare_all; simpl; try lra.
  - split.
    + apply Qle_shift_div_l; lra.
    + apply Qle_shift_div_r; lra.
  - assert (b < x) by lra. split.
    + apply Qle_shift_div_l; lra.
    + apply Qle_shift_div_r; lra.
Qed.

Lemma triangleMf_branch (x : number) (points : Triangle) :
  triangleMf x points =
  let '(a, b, c) := points in
  match triangleBranch x points with
  | Outside => Ok 0
  | Rising => div (x - a) (b - a)
  | Falling => div (c - x) (c - b)
  | Fallthrough => Ok 0
  end.
Proof.
  destruct points as [[a b] c]. unfold triangleMf, triangleBranch.
  destruct ((x <=? a) || (x >=? c)); [reflexivity|].
  destruct ((x >? a) && (x <=? b)); [reflexivity|].
  destruct ((x >? b) && (x <? c)); reflexivity.
Qed.

(** ** Running maxima *)

Lemma keepMax_cases (s current : number) :
  (keepMax s current = s /\ current < s) \/
  (keepMax s current = current /\ s <= current).
Proof.
  unfold keepMax. destruct (gtb_reflect s current); [left | right]; split;
    trivial; lra.
Qed.

Lemma runningMax_spec (l : list number) : forall start,
  start <= runningMax l start /\
  Forall (fun s => s <= runningMax l start) l /\
  (runningMax l start = start \/ In (runningMax l start) l).
Proof.
  induction l as [|s l IH]; intro start; simpl.
  - repeat split; [lra | constructor | now left].
  - destruct (IH (keepMax s start)) as (Hge & Hall & Hin).
    fold (runningMax l (keepMax s start)) in *.
    destruct (keepMax_cases s start) as [[E Hlt] | [E Hle]];
      rewrite E in *; repeat split; try lra.
    + constructor; [lra | exact Hall].
    + destruct Hin as [Hin | Hin]; right; [left; now symmetry | now right].
    + constructor; [lra | exact Hall].
    + destruct Hin as [Hin | Hin]; [now left | right; now right].
Qed.

Lemma runningMax_nonneg (l : list number) : 0 <= runningMax l 0.
Proof. apply (runningMax_spec l 0). Qed.

Lemma runningMax_range (l : list number) :
  Forall (fun s => 0 <= s <= 1) l -> 0 <= runningMax l 0 <= 1.
Proof.
  intro Hl. destruct (runningMax_spec l 0) as (Hge & _ & [E | Hin]).
  - rewrite E. lra.
  - rewrite Forall_forall in Hl. apply Hl, Hin.
Qed.

Lemma runningMax_maximumOf (l : list number) :
  Forall (fun s => 0 <= s) l -> maximumOf l (runningMax l 0).
Proof.
  intro Hpos. destruct (runningMax_spec l 0) as (Hge & Hall & Hin).
  destruct l as [|s l]; [simpl; lra|].
  unfold maximumOf. split; [|exact Hall].
  destruct Hin as [E | Hin].
  - apply Exists_cons_hd. rewrite E in *.
    inversion Hpos; subst. inversion Hall; subst. lra.
  - apply Exists_exists. exists (runningMax (s :: l) 0). split; [exact Hin | lra].
Qed.

Lemma runningMax_zero (l : list number) :
  Forall (fun s => s == 0) l -> runningMax l 0 == 0.
Proof.
  intro Hl. destruct (runningMax_spec l 0) as (_ & _ & [E | Hin]).
  - rewrite E. lra.
  - rewrite Forall_forall in Hl. apply Hl, Hin.
Qed.

(** ** Objects *)

Lemma assign_same {V : Type} (o : object V) (k : string) (v : V) :
  lookup o k = Some v -> assign o k v = o.
Proof.
  induction o as [|[k' v'] o IH]; simpl; [discriminate|].
  destruct (String.eqb k' k).
  - intro H. now inversion H.
  - intro H. now rewrite IH.
Qed.

Lemma get_lookup {V : Type} (o : object V) (k : string) (v : V) :
  lookup o k = Some v -> get o k = Ok v.
Proof. unfold get. now intros ->. Qed.

(** ** Rule evaluation *)

Lemma fireRule_keepMax (dd gd : object number) (ds gs : string)
    (act : object number) (row : object string) (o : string)
    (d g current : number) :
  lookup rules ds = Some row -> lookup row gs = Some o ->
  lookup dd ds = Some d -> lookup gd gs = Some g ->
  lookup act o = Some current ->
  fireRule dd gd ds gs act = Ok (assign act o (keepMax (Qmin d g) current)).
Proof.
  intros Hrow Ho Hd Hg Hc. unfold fireRule.
  rewrite (get_lookup _ _ _ Hrow). simpl.
  rewrite (get_lookup _ _ _ Ho). simpl.
  rewrite (get_lookup _ _ _ Hd). simpl.
  rewrite (get_lookup _ _ _ Hg). simpl.
  rewrite (get_lookup _ _ _ Hc). simpl.
  unfold keepMax. destruct (Qmin d g >? current); [reflexivity|].
  now rewrite assign_same.
Qed.

Lemma evaluateRules_shape (sd md ld ng mg lg : number) :
  evaluateRules [("SD", sd); ("MD", md); ("LD", ld)]
                [("NG", ng); ("MG", mg); ("LG", lg)] =
  Ok [ ("VS", runningMax [Qmin sd ng] 0);
       ("S", runningMax [Qmin sd mg; Qmin md ng] 0);
       ("M", runningMax [Qmin sd lg; Qmin md mg; Qmin ld ng] 0);
       ("L", runningMax [Qmin md lg; Qmin ld mg] 0);
       ("VL", runningMax [Qmin ld lg] 0) ].
Proof.
  unfold evaluateRules. cbn [keys map fst rules foldM get lookup String.eqb Ascii.eqb Bool.eqb bind].
  repeat (erewrite fireRule_keepMax by reflexivity;
          cbn [assign String.eqb Ascii.eqb Bool.eqb bind]).
  reflexivity.
Qed.

(** ** Aggregation *)

Lemma clip_keepMax (act : object number) (t : number) (term : string)
    (a : number) (points : Triangle) (maxDegree : number) :
  lookup act term = Some a -> lookup timeMf term = Some points ->
  clip act t term maxDegree =
  Ok (keepMax (Qmin a (triangleValue t points)) maxDegree).
Proof.
  intros Ha Hp. unfold clip.
  rewrite (get_lookup _ _ _ Ha). simpl.
  rewrite (get_lookup _ _ _ Hp). simpl.
  rewrite triangleMf_value. cbn [bind].
  unfold keepMax. now destruct (_ >? _).
Qed.

Lemma keys_timeTerms (act : object number) :
  keys act = timeTerms ->
  exists v1 v2 v3 v4 v5,
    act = [("VS", v1); ("S", v2); ("M", v3); ("L", v4); ("VL", v5)].
Proof.
  unfold keys, timeTerms. intro H.
  destruct act as [|[k1 v1] [|[k2 v2] [|[k3 v3] [|[k4 v4] [|[k5 v5] [|]]]]]];
    simpl in H; try discriminate.
  injection H as -> -> -> -> ->. now exists v1, v2, v3, v4, v5.
Qed.

Lemma maxDegreeAt_value (act : object number) (t : number) :
  keys act = timeTerms -> maxDegreeAt act t = Ok (aggregatedDegree act t).
Proof.
  intro H. destruct (keys_timeTerms act H) as (v1 & v2 & v3 & v4 & v5 & ->).
  unfold maxDegreeAt. cbn [keys map fst foldM].
  repeat (erewrite clip_keepMax by reflexivity; cbn [bind]).
  reflexivity.
Qed.

Lemma aggregatedDegree_nonneg (act : object number) (t : number) :
  0 <= aggregatedDegree act t.
Proof. apply runningMax_nonneg. Qed.

Lemma sampleLoop_run (act : object number) :
  keys act = timeTerms ->
  forall (count fuel : nat) (t : number) (acc : list point),
    (count < fuel)%nat ->
    Forall (fun u => u <= 60) (sampleTimes count t (60 / samples)) ->
    60 < timeAfter count t (60 / samples) ->
    sampleLoop fuel act t acc =
    Ok (acc ++ surfaceOf (aggregatedDegree act)
                         (sampleTimes count t (60 / samples)))%list.
Proof.
  intros Hkeys count. induction count as [|n IH]; intros fuel t acc Hfuel Hin Hout.
  - destruct fuel as [|fuel]; [lia|]. simpl in *.
    destruct (leb_reflect t 60); [lra|]. now rewrite app_nil_r.
  - destruct fuel as [|fuel]; [lia|]. simpl in Hin, Hout.
    inversion Hin as [|u l Hu Hrest]; subst.
    cbn [sampleLoop]. destruct (leb_reflect t 60); [|contradiction].
    rewrite (maxDegreeAt_value act t Hkeys). cbn [bind].
    change (div 60 samples) with (Ok (60 / samples)). cbn [bind].
    rewrite (IH fuel (t + 60 / samples)); [|lia|assumption|assumption].
    simpl. now rewrite <- app_assoc.
Qed.

Lemma sampleTimes_length (count : nat) : forall t step,
  List.length (sampleTimes count t step) = count.
Proof. induction count; intros; simpl; [reflexivity | now rewrite IHcount]. Qed.

Lemma sampleTimes_nth (count : nat) : forall (k : nat) (t step : number),
  (k < count)%nat ->
  nth k (sampleTimes count t step) 0 == t + inject_Z (Z.of_nat k) * step.
Proof.
  induction count as [|n IH]; intros k t step Hk; [lia|].
  destruct k as [|k]; simpl nth.
  - change (inject_Z (Z.of_nat 0)) with 0. lra.
  - rewrite IH by lia. rewrite Nat2Z.inj_succ. unfold Z.succ.
    rewrite inject_Z_plus. change (inject_Z 1) with 1. lra.
Qed.

Lemma timeAfter_value (count : nat) : forall (t step : number),
  timeAfter count t step == t + inject_Z (Z.of_nat count) * step.
Proof.
  induction count as [|n IH]; intros t step.
  - change (inject_Z (Z.of_nat 0)) with 0. simpl. lra.
  - cbn [timeAfter]. rewrite IH. rewrite Nat2Z.inj_succ. unfold Z.succ.
    rewrite inject_Z_plus. change (inject_Z 1) with 1. lra.
Qed.

Lemma referenceTimes_nth (k : nat) :
  (k < 121)%nat -> nth k referenceTimes 0 == inject_Z (Z.of_nat k) * (1 # 2).
Proof.
  intro Hk. unfold referenceTimes. rewrite sampleTimes_nth by exact Hk.
  setoid_replace (60 / samples) with (1 # 2) by reflexivity. lra.
Qed.

Lemma referenceTimes_range (t : number) :
  In t referenceTimes -> 0 <= t <= 60.
Proof.
  intro Hin. destruct (In_nth _ _ 0 Hin) as (k & Hk & <-).
  unfold referenceTimes in Hk. rewrite sampleTimes_length in Hk.
  rewrite referenceTimes_nth by exact Hk.
  assert (0 <= inject_Z (Z.of_nat k) <= 120).
  { split.
    - change 0 with (inject_Z 0). rewrite <- Zle_Qle. lia.
    - change 120 with (inject_Z 120). rewrite <- Zle_Qle. lia. }
  lra.
Qed.

Lemma aggregate_value (fuel : nat) (act : object number) :
  keys act = timeTerms -> (122 <= fuel)%nat ->
  aggregate fuel act = Ok (surfaceOf (aggregatedDegree act) referenceTimes).
Proof.
  intros Hkeys Hfuel. unfold aggregate.
  rewrite (sampleLoop_run act Hkeys 121 fuel 0 []); [reflexivity | lia | |].
  - apply Forall_forall. intros t Ht. apply (referenceTimes_range t Ht).
  - rewrite timeAfter_value.
    setoid_replace (60 / samples) with (1 # 2) by reflexivity.
    change (inject_Z (Z.of_nat 121)) with 121. lra.
Qed.

(** ** Defuzzification *)

Lemma fold_accumulate (pts : list point) : forall n0 d0,
  fst (fold_left accumulate pts (n0, d0)) == n0 + numeratorOf pts /\
  snd (fold_left accumulate pts (n0, d0)) == d0 + denominatorOf pts.
Proof.
  induction pts as [|p pts IH]; intros n0 d0.
  - unfold numeratorOf, denominatorOf. simpl. split; lra.
  - cbn [fold_left accumulate].
    destruct (IH (n0 + x p * y p) (d0 + y p)) as [Hn Hd].
    rewrite Hn, Hd. unfold numeratorOf, denominatorOf. simpl. split; lra.
Qed.

Lemma sums_value (pts : list point) :
  fst (sums pts) == numeratorOf pts /\ snd (sums pts) == denominatorOf pts.
Proof.
  unfold sums. destruct (fold_accumulate pts 0 0) as [Hn Hd].
  rewrite Hn, Hd. split; lra.
Qed.

Lemma defuzzify_value (pts : list point) : defuzzify pts = Ok (centroid pts).
Proof.
  unfold defuzzify, centroid. destruct (sums pts) as [n d].
  destruct (strictEq_reflect d 0); [reflexivity | now apply div_ok].
Qed.

Lemma centroid_cases (pts : list point) :
  (denominatorOf pts == 0 -> centroid pts = 30) /\
  (~ denominatorOf pts == 0 ->
   centroid pts == numeratorOf pts / denominatorOf pts).
Proof.
  destruct (sums_value pts) as [Hn Hd]. unfold centroid.
  destruct (sums pts) as [n d]. simpl in Hn, Hd.
  destruct (strictEq_reflect d 0) as [E | E]; split; intro H.
  - reflexivity.
  - exfalso. apply H. rewrite <- Hd. exact E.
  - exfalso. apply E. rewrite Hd. exact H.
  - rewrite Hn, Hd. reflexivity.
Qed.

Section WeightedAverage.
Variables lo hi : number.

Lemma fold_accumulate_bounds (pts : list point) : forall n0 d0,
  Forall (fun p => lo <= x p <= hi /\ 0 <= y p) pts ->
  0 <= d0 -> lo * d0 <= n0 <= hi * d0 ->
  0 <= snd (fold_left accumulate pts (n0, d0)) /\
  lo * snd (fold_left accumulate pts (n0, d0))
    <= fst (fold_left accumulate pts (n0, d0))
    <= hi * snd (fold_left accumulate pts (n0, d0)).
Proof.
  induction pts as [|p pts IH]; intros n0 d0 Hall Hd Hn.
  - simpl. tauto.
  - inversion Hall as [|q l [Hx Hy] Hrest]; subst.
    cbn [fold_left accumulate]. apply IH; [exact Hrest | lra |].
    assert (0 <= (x p - lo) * y p) by (apply Qmult_le_0_compat; lra).
    assert (0 <= (hi - x p) * y p) by (apply Qmult_le_0_compat; lra).
    lra.
Qed.

Lemma centroid_bounds (pts : list point) :
  lo <= 30 <= hi ->
  Forall (fun p => lo <= x p <= hi /\ 0 <= y p) pts ->
  lo <= centroid pts <= hi.
Proof.
  intros H30 Hall. unfold centroid, sums.
  destruct (fold_accumulate_bounds pts 0 0 Hall) as (Hd & Hn); try lra.
  destruct (fold_left accumulate pts (0, 0)) as [n d]. simpl in Hd, Hn.
  destruct (strictEq_reflect d 0) as [E | E]; [exact H30|].
  assert (0 < d) by (destruct (Qlt_le_dec 0 d); [assumption | exfalso; apply E; lra]).
  split.
  - apply Qle_shift_div_l; lra.
  - apply Qle_shift_div_r; lra.
Qed.
End WeightedAverage.

(** ** The whole of [update] *)

Lemma fuzzifyDirt_value (dirtValue : number) :
  fuzzifyDirt dirtValue = Ok (degreesOf dirtMf dirtValue).
Proof.
  unfold fuzzifyDirt. cbn [get lookup dirtMf String.eqb Ascii.eqb Bool.eqb bind].
  rewrite !triangleMf_value. reflexivity.
Qed.

Lemma fuzzifyGrease_value (greaseValue : number) :
  fuzzifyGrease greaseValue = Ok (degreesOf greaseMf greaseValue).
Proof.
  unfold fuzzifyGrease. cbn [get lookup greaseMf String.eqb Ascii.eqb Bool.eqb bind].
  rewrite !triangleMf_value. reflexivity.
Qed.

Lemma keys_three (names : list string) (o : object number) (n1 n2 n3 : string) :
  names = [n1; n2; n3] -> keys o = names ->
  exists v1 v2 v3, o = [(n1, v1); (n2, v2); (n3, v3)].
Proof.
  intros -> H. unfold keys in H.
  destruct o as [|[k1 v1] [|[k2 v2] [|[k3 v3] [|]]]]; simpl in H;
    try discriminate.
  injection H as -> -> ->. now exists v1, v2, v3.
Qed.

Lemma evaluateRules_value (dd gd : object number) :
  keys dd = dirtTerms -> keys gd = greaseTerms ->
  evaluateRules dd gd = Ok (activationOf dd gd).
Proof.
  intros Hd Hg.
  destruct (keys_three _ dd _ _ _ eq_refl Hd) as (sd & md & ld & ->).
  destruct (keys_three _ gd _ _ _ eq_refl Hg) as (ng & mg & lg & ->).
  rewrite evaluateRules_shape. reflexivity.
Qed.

Lemma activationOf_keys (dd gd : object number) :
  keys (activationOf dd gd) = timeTerms.
Proof. reflexivity. Qed.

Lemma update_value (fuel : nat) (dirtValue greaseValue : number) :
  (122 <= fuel)%nat ->
  update fuel dirtValue greaseValue = Ok (inferenceOf dirtValue greaseValue).
Proof.
  intro Hfuel. unfold update.
  rewrite fuzzifyDirt_value, fuzzifyGrease_value. cbn [bind].
  rewrite evaluateRules_value by reflexivity. cbn [bind].
  rewrite aggregate_value by (trivial using activationOf_keys). cbn [bind].
  rewrite defuzzify_value. reflexivity.
Qed.

(** * The claims *)

(** ** Triangular membership function *)

(** C2, as stated, fails: on the triangle (0, 1, 1), whose peak is its
    right foot, the point x = 1 satisfies both [x >= c] and [a < x <= b];
    [triangleMf] returns 0 there, while the second case of the contract
    asks for (1 - 0) / (1 - 0) = 1. *)
Lemma contractAsStated_fails_at_right_foot_peak :
  ~ contractAsStated 1 (0, 1, 1).
Proof.
  unfold contractAsStated. intro H.
  destruct H as (_ & Hrise & _); [split; lra|].
  destruct Hrise as (r & Hr & Hv); [split; lra|].
  vm_compute in Hr. injection Hr as <-.
  vm_compute in Hv. discriminate.
Qed.

(** C2 (amended): for every x and every triangle (a, b, c) with
    a <= b <= c, [triangleMf] returns 0 if x <= a or x >= c, returns
    (x - a) / (b - a) if a < x <= b and x < c, and returns
    (c - x) / (c - b) if b < x < c. *)
Theorem triangleMf_contract (x a b c : number) :
  a <= b -> b <= c ->
  (x <= a \/ c <= x -> triangleMf x (a, b, c) = Ok 0) /\
  (a < x -> x <= b -> x < c ->
   triangleMf x (a, b, c) = Ok ((x - a) / (b - a))) /\
  (b < x -> x < c -> triangleMf x (a, b, c) = Ok ((c - x) / (c - b))).
Proof.
  intros Hab Hbc. unfold triangleMf. repeat split.
  - intros [H | H]; compare_all; simpl; trivial; lra.
  - intros H1 H2 H3. compare_all; simpl; try lra. apply div_ok. lra.
  - intros H1 H2. compare_all; simpl; try lra. apply div_ok. lra.
Qed.

Lemma triangleMf_contract_witness :
  0 <= 10 /\ 10 <= 20 /\
  triangleMf 20 (0, 10, 20) = Ok 0 /\
  triangleMf 5 (0, 10, 20) = Ok ((5 - 0) / (10 - 0)) /\
  triangleMf 15 (0, 10, 20) = Ok ((20 - 15) / (20 - 10)).
Proof.
  assert (Hab : 0 <= 10) by (vm_compute; discriminate).
  assert (Hbc : 10 <= 20) by (vm_compute; discriminate).
  split; [exact Hab|]. split; [exact Hbc|].
  split; [|split].
  - apply (proj1 (triangleMf_contract 20 0 10 20 Hab Hbc)).
    right. vm_compute; discriminate.
  - apply (proj1 (proj2 (triangleMf_contract 5 0 10 20 Hab Hbc))); lra.
  - apply (proj2 (proj2 (triangleMf_contract 15 0 10 20 Hab Hbc))); lra.
Defined.


Example degenerate_overflow_run :
  triangleBranch64 (-0x1p+1023)%float
    (-0x1.8p+1023, -0x1.8p+1023, 0x1.8p+1023)%float = Falling /\
  PrimFloat.is_nan
    (triangleMf64 (-0x1p+1023)%float
       (-0x1.8p+1023, -0x1.8p+1023, 0x1.8p+1023)%float) = true.
Proof. split; vm_compute; reflexivity. Qed.




(** Runs on doubles at the edge of the range: with magnitudes up to 2^1022
    the differences do not overflow and the result stays in [0,1]. *)
Example degenerate_in_range_run :
  inUnitInterval64
    (triangleMf64 (-0x1p+1021)%float
       (-0x1p+1022, -0x1p+1022, 0x1p+1022)%float) = true /\
  inUnitInterval64
    (triangleMf64 0x1p+1021%float
       (-0x1p+1022, 0x1p+1022, 0x1p+1022)%float) = true /\
  inUnitInterval64
    (triangleMf64 0x1p-1074%float (0, 0, 0x1p+1022)%float) = true.
Proof. repeat split; vm_compute; reflexivity. Qed.

(** C10: on a triangle with a = b, and likewise on one with b = c,
    [triangleMf] at the peak x = b returns 0; it returns 1 at the peak
    when a < b < c, and only then. *)
Theorem triangleMf_at_peak (a b c : number) :
  (a == b -> triangleMf b (a, b, c) = Ok 0) /\
  (b == c -> triangleMf b (a, b, c) = Ok 0) /\
  (a < b -> b < c -> exists r, triangleMf b (a, b, c) = Ok r /\ r == 1) /\
  (forall r, triangleMf b (a, b, c) = Ok r -> r == 1 -> a < b /\ b < c).
Proof.
  unfold triangleMf. split; [|split; [|split]].
  - intro H. compare_all; simpl; trivial; lra.
  - intro H. compare_all; simpl; trivial; lra.
  - intros H1 H2. exists ((b - a) / (b - a)).
    split; [|field; lra].
    compare_all; simpl; try lra. apply div_ok. lra.
  - intro r. unfold div.
    compare_all; simpl; intros Hr Hv; try discriminate;
      injection Hr as <-; split; lra.
Qed.

Lemma triangleMf_at_peak_witness :
  triangleMf 4 (4, 4, 9) = Ok 0 /\ triangleMf 9 (4, 9, 9) = Ok 0 /\
  (exists r, triangleMf 6 (4, 6, 9) = Ok r /\ r == 1).
Proof.
  split; [|split].
  - apply (proj1 (triangleMf_at_peak 4 4 9)). reflexivity.
  - apply (proj1 (proj2 (triangleMf_at_peak 4 9 9))). reflexivity.
  - apply (proj1 (proj2 (proj2 (triangleMf_at_peak 4 6 9)))); lra.
Defined.

(** ** Rule evaluation and aggregation *)

Lemma lookup_Forall (P : number -> Prop) (o : object number) (k : string)
    (v : number) :
  Forall (fun kv => P (snd kv)) o -> lookup o k = Some v -> P v.
Proof.
  induction o as [|[k' v'] o IH]; simpl; [discriminate|].
  intros Hall Hl. inversion Hall; subst.
  destruct (String.eqb k' k); [now inversion Hl; subst | now apply IH].
Qed.

Lemma Qmin_range (p q : number) :
  0 <= p <= 1 -> 0 <= q <= 1 -> 0 <= Qmin p q <= 1.
Proof. intros Hp Hq. destruct (Q.min_spec p q) as [[_ E] | [_ E]]; lra. Qed.

Lemma Qmin_zero (p q : number) : p == 0 -> q == 0 -> Qmin p q == 0.
Proof. intros Hp Hq. destruct (Q.min_spec p q) as [[_ E] | [_ E]]; lra. Qed.

Lemma Qmin_zero_l (p q : number) : p == 0 -> 0 <= q -> Qmin p q == 0.
Proof. intros Hp Hq. destruct (Q.min_spec p q) as [[H E] | [H E]]; lra. Qed.

Lemma strengthsFor_range (dd gd : object number) (term : string) :
  Forall (fun kv => 0 <= snd kv <= 1) dd ->
  Forall (fun kv => 0 <= snd kv <= 1) gd ->
  Forall (fun s => 0 <= s <= 1) (strengthsFor dd gd term).
Proof.
  intros Hd Hg. unfold strengthsFor. apply Forall_flat_map.
  apply Forall_forall. intros [[d g] o] _.
  destruct (String.eqb o term); [|constructor].
  destruct (lookup dd d) as [dv|] eqn:Ed; [|constructor].
  destruct (lookup gd g) as [gv|] eqn:Eg; constructor; [|constructor].
  apply Qmin_range.
  - exact (lookup_Forall (fun v => 0 <= v <= 1) dd d dv Hd Ed).
  - exact (lookup_Forall (fun v => 0 <= v <= 1) gd g gv Hg Eg).
Qed.

Lemma strengthsFor_zero (dd gd : object number) (term : string) :
  allZero dd -> allZero gd ->
  Forall (fun s => s == 0) (strengthsFor dd gd term).
Proof.
  intros Hd Hg. unfold strengthsFor. apply Forall_flat_map.
  apply Forall_forall. intros [[d g] o] _.
  destruct (String.eqb o term); [|constructor].
  destruct (lookup dd d) as [dv|] eqn:Ed; [|constructor].
  destruct (lookup gd g) as [gv|] eqn:Eg; constructor; [|constructor].
  apply Qmin_zero.
  - exact (lookup_Forall (fun v => v == 0) dd d dv Hd Ed).
  - exact (lookup_Forall (fun v => v == 0) gd g gv Hg Eg).
Qed.

Lemma Forall_weaken_nonneg (l : list number) :
  Forall (fun s => 0 <= s <= 1) l -> Forall (fun s => 0 <= s) l.
Proof. apply Forall_impl. intros s Hs. lra. Qed.

(** The strengths that compete for each output term of the reference
    rule table. *)
Example strengthsFor_reference (sd md ld ng mg lg : number) :
  let dd := [("SD", sd); ("MD", md); ("LD", ld)] in
  let gd := [("NG", ng); ("MG", mg); ("LG", lg)] in
  strengthsFor dd gd "VS" = [Qmin sd ng] /\
  strengthsFor dd gd "S" = [Qmin sd mg; Qmin md ng] /\
  strengthsFor dd gd "M" = [Qmin sd lg; Qmin md mg; Qmin ld ng] /\
  strengthsFor dd gd "L" = [Qmin md lg; Qmin ld mg] /\
  strengthsFor dd gd "VL" = [Qmin ld lg].
Proof. repeat split. Qed.

(** C3: for every pair of degree mappings (values in [0,1]), rule
    evaluation returns an activation mapping with exactly the keys VS, S,
    M, L, VL, and the value of each term is the maximum, over the rules
    whose consequent is that term, of the minimum of the two antecedent
    degrees (0 when there is no such rule), and lies in [0,1]. *)
Theorem evaluateRules_max_min (dd gd : object number) :
  degreeMapping dirtTerms dd -> degreeMapping greaseTerms gd ->
  exists act,
    evaluateRules dd gd = Ok act /\
    keys act = ["VS"; "S"; "M"; "L"; "VL"] /\
    forall term, In term (keys act) ->
      exists v, lookup act term = Some v /\
                maximumOf (strengthsFor dd gd term) v /\
                0 <= v <= 1.
Proof.
  intros [Hkd Hrd] [Hkg Hrg]. exists (activationOf dd gd).
  split; [now apply evaluateRules_value|]. split; [reflexivity|].
  intros term Hin.
  pose proof (strengthsFor_range dd gd term Hrd Hrg) as Hs.
  exists (runningMax (strengthsFor dd gd term) 0).
  split; [|split].
  - simpl in Hin. decompose [or] Hin; subst; try reflexivity; contradiction.
  - apply runningMax_maximumOf, Forall_weaken_nonneg, Hs.
  - apply runningMax_range, Hs.
Qed.

Lemma evaluateRules_max_min_witness :
  exists act,
    evaluateRules [("SD", 1 # 4); ("MD", 3 # 4); ("LD", 0)]
                  [("NG", 0); ("MG", 1 # 2); ("LG", 1 # 2)] = Ok act /\
    keys act = ["VS"; "S"; "M"; "L"; "VL"] /\
    forall term, In term (keys act) ->
      exists v, lookup act term = Some v /\
                maximumOf
                  (strengthsFor [("SD", 1 # 4); ("MD", 3 # 4); ("LD", 0)]
                                [("NG", 0); ("MG", 1 # 2); ("LG", 1 # 2)]
                                term) v /\
                0 <= v <= 1.
Proof.
  apply evaluateRules_max_min; (split; [reflexivity|]);
    repeat (apply Forall_cons; [simpl; lra|]); apply Forall_nil.
Defined.

Lemma clippedAt_value (act : object number) (t : number) :
  keys act = timeTerms -> clippedAt act t = Ok (clippedValues act t).
Proof.
  intro H. destruct (keys_timeTerms act H) as (v1 & v2 & v3 & v4 & v5 & ->).
  unfold clippedAt.
  cbn [mapM timeMf get lookup String.eqb Ascii.eqb Bool.eqb bind fst snd].
  rewrite !triangleMf_value. reflexivity.
Qed.

Lemma clippedValues_range (act : object number) (t : number) :
  Forall (fun kv => 0 <= snd kv <= 1) act ->
  Forall (fun s => 0 <= s <= 1) (clippedValues act t).
Proof.
  intro Hact. unfold clippedValues. apply Forall_map, Forall_forall.
  intros [term points] _. simpl.
  destruct (lookup act term) as [a|] eqn:E; [|lra].
  apply Qmin_range; [|apply triangleValue_range].
  exact (lookup_Forall (fun v => 0 <= v <= 1) act term a Hact E).
Qed.

Lemma clippedValues_zero (act : object number) (t : number) :
  allZero act -> Forall (fun s => s == 0) (clippedValues act t).
Proof.
  intro Hact. unfold clippedValues. apply Forall_map, Forall_forall.
  intros [term points] _. simpl.
  destruct (lookup act term) as [a|] eqn:E; [|lra].
  apply Qmin_zero_l; [|apply triangleValue_range].
  exact (lookup_Forall (fun v => v == 0) act term a Hact E).
Qed.

(** C4: for every activation mapping (keys VS, S, M, L, VL, values in
    [0,1]) and every point t, the inner loop returns the maximum over the
    five output terms of min(activation[term], triangleMf(t, term)), a
    value in [0,1]; and every point of the aggregated surface carries that
    value at its own position. *)
Theorem aggregation_pointwise (act : object number) :
  degreeMapping timeTerms act ->
  (forall t, exists contributions d,
     clippedAt act t = Ok contributions /\
     List.length contributions = 5%nat /\
     maxDegreeAt act t = Ok d /\
     maximumOf contributions d /\
     0 <= d <= 1) /\
  (forall fuel, (122 <= fuel)%nat ->
     exists pts, aggregate fuel act = Ok pts /\
                 Forall (fun p => maxDegreeAt act (x p) = Ok (y p)) pts).
Proof.
  intros [Hk Hr]. split.
  - intro t. exists (clippedValues act t), (aggregatedDegree act t).
    pose proof (clippedValues_range act t Hr) as Hc.
    split; [now apply clippedAt_value|]. split; [reflexivity|].
    split; [now apply maxDegreeAt_value|]. split.
    + apply runningMax_maximumOf, Forall_weaken_nonneg, Hc.
    + apply runningMax_range, Hc.
  - intros fuel Hfuel.
    exists (surfaceOf (aggregatedDegree act) referenceTimes).
    split; [now apply aggregate_value|].
    unfold surfaceOf. apply Forall_map, Forall_forall. intros t _. simpl.
    now apply maxDegreeAt_value.
Qed.

Lemma aggregation_pointwise_witness :
  exists contributions d,
    clippedAt [("VS", 1); ("S", 1 # 2); ("M", 0); ("L", 0); ("VL", 0)] 5
      = Ok contributions /\
    List.length contributions = 5%nat /\
    maxDegreeAt [("VS", 1); ("S", 1 # 2); ("M", 0); ("L", 0); ("VL", 0)] 5
      = Ok d /\
    maximumOf contributions d /\
    0 <= d <= 1.
Proof.
  assert (Hact : degreeMapping timeTerms
            [("VS", 1); ("S", 1 # 2); ("M", 0); ("L", 0); ("VL", 0)]).
  { split; [reflexivity|].
    repeat (apply Forall_cons; [simpl; lra|]). apply Forall_nil. }
  apply (proj1 (aggregation_pointwise _ Hact)).
Defined.

(** ** The sampled surface *)

Lemma surfaceOf_positions (f : number -> number) (ts : list number) :
  map x (surfaceOf f ts) = ts.
Proof.
  unfold surfaceOf. rewrite map_map. simpl. apply map_id.
Qed.

Lemma inject_nat_lt (i j : nat) :
  (i < j)%nat -> inject_Z (Z.of_nat i) < inject_Z (Z.of_nat j).
Proof. intro H. rewrite <- Zlt_Qlt. lia. Qed.

(** C5: for every invocation, the aggregated surface has exactly 121
    sample points; point number k lies at 0 + k * (60 - 0) / 120, so that
    consecutive points are 0.5 apart, positions strictly increase, the
    first is 0 and the last is 60. *)
Theorem surface_sampling (fuel : nat) (dirtValue greaseValue : number) :
  (122 <= fuel)%nat ->
  exists r, update fuel dirtValue greaseValue = Ok r /\
    let xs := map x (aggregatedPoints r) in
    List.length xs = 121%nat /\
    (forall k, (k < 121)%nat ->
       nth k xs 0 == 0 + inject_Z (Z.of_nat k) * ((60 - 0) / 120)) /\
    (forall k, (S k < 121)%nat -> nth (S k) xs 0 - nth k xs 0 == 1 # 2) /\
    (forall i j, (i < j)%nat -> (j < 121)%nat -> nth i xs 0 < nth j xs 0) /\
    hd 0 xs == 0 /\
    last xs 0 == 60.
Proof.
  intro Hfuel. exists (inferenceOf dirtValue greaseValue).
  split; [now apply update_value|].
  cbn [inferenceOf aggregatedPoints]. rewrite surfaceOf_positions.
  cbv zeta. split; [apply sampleTimes_length|].
  split; [|split; [|split; [|split]]].
  - intros k Hk. rewrite referenceTimes_nth by exact Hk.
    setoid_replace ((60 - 0) / 120) with (1 # 2) by reflexivity. lra.
  - intros k Hk. rewrite !referenceTimes_nth by lia.
    rewrite Nat2Z.inj_succ. unfold Z.succ. rewrite inject_Z_plus.
    change (inject_Z 1) with 1. lra.
  - intros i j Hij Hj. rewrite !referenceTimes_nth by lia.
    pose proof (inject_nat_lt i j Hij). lra.
  - reflexivity.
  - vm_compute. reflexivity.
Qed.

Lemma surface_sampling_witness :
  exists r, update 122 40 160 = Ok r /\
    let xs := map x (aggregatedPoints r) in
    List.length xs = 121%nat /\
    (forall k, (k < 121)%nat ->
       nth k xs 0 == 0 + inject_Z (Z.of_nat k) * ((60 - 0) / 120)) /\
    (forall k, (S k < 121)%nat -> nth (S k) xs 0 - nth k xs 0 == 1 # 2) /\
    (forall i j, (i < j)%nat -> (j < 121)%nat -> nth i xs 0 < nth j xs 0) /\
    hd 0 xs == 0 /\
    last xs 0 == 60.
Proof. apply (surface_sampling 122 40 160). lia. Defined.

(** ** Defuzzification and the crisp output *)

Lemma activationOf_zero (dd gd : object number) :
  allZero dd -> allZero gd -> allZero (activationOf dd gd).
Proof.
  intros Hd Hg. unfold allZero, activationOf.
  apply Forall_map, Forall_forall. intros term _. simpl.
  apply runningMax_zero, strengthsFor_zero; assumption.
Qed.

Lemma denominatorOf_zero (f : number -> number) (ts : list number) :
  (forall t, f t == 0) -> denominatorOf (surfaceOf f ts) == 0.
Proof.
  intro Hf. unfold denominatorOf, surfaceOf. rewrite map_map. simpl.
  induction ts as [|t ts IH]; simpl; [reflexivity|].
  rewrite IH, Hf. lra.
Qed.

Lemma fallback_when_all_zero (dd gd : object number) :
  allZero dd -> allZero gd ->
  let pts := surfaceOf (aggregatedDegree (activationOf dd gd)) referenceTimes in
  denominatorOf pts == 0 /\ centroid pts = 30.
Proof.
  intros Hd Hg pts.
  assert (Hz : denominatorOf pts == 0).
  { apply denominatorOf_zero. intro t.
    apply runningMax_zero, clippedValues_zero, activationOf_zero; assumption. }
  split; [exact Hz | exact (proj1 (centroid_cases pts) Hz)].
Qed.

(** C1: for every pair of inputs, [update] returns a value (no error, no
    non-finite number); with numerator the sum of t * mu(t) and denominator
    the sum of mu(t) over the sample points of the aggregated surface, the
    crisp output is numerator / denominator when the denominator is
    nonzero and 30 when it is zero; the latter is the case whenever both
    inputs have all-zero membership degrees. *)
Theorem defuzzification_fallback (fuel : nat) (dirtValue greaseValue : number) :
  (122 <= fuel)%nat ->
  exists r, update fuel dirtValue greaseValue = Ok r /\
    let pts := aggregatedPoints r in
    (~ denominatorOf pts == 0 ->
     cog r == numeratorOf pts / denominatorOf pts) /\
    (denominatorOf pts == 0 -> cog r = 30) /\
    (allZero (dirtDegrees r) -> allZero (greaseDegrees r) ->
     denominatorOf pts == 0 /\ cog r = 30).
Proof.
  intro Hfuel. exists (inferenceOf dirtValue greaseValue).
  split; [now apply update_value|].
  cbn [inferenceOf aggregatedPoints cog dirtDegrees greaseDegrees]. cbv zeta.
  match goal with
  | |- context [centroid ?pts] => destruct (centroid_cases pts) as [H0 Hn]
  end.
  split; [exact Hn|]. split; [exact H0|].
  intros Hd Hg. now apply fallback_when_all_zero.
Qed.

Lemma defuzzification_fallback_witness :
  exists r, update 122 1000 1000 = Ok r /\
    let pts := aggregatedPoints r in
    (~ denominatorOf pts == 0 ->
     cog r == numeratorOf pts / denominatorOf pts) /\
    (denominatorOf pts == 0 -> cog r = 30) /\
    (allZero (dirtDegrees r) -> allZero (greaseDegrees r) ->
     denominatorOf pts == 0 /\ cog r = 30).
Proof. apply (defuzzification_fallback 122 1000 1000). lia. Defined.

(** C8: for every pair of inputs the crisp output lies in the closed
    output domain [0, 60]. *)
Theorem output_in_domain (fuel : nat) (dirtValue greaseValue : number) :
  (122 <= fuel)%nat ->
  exists r, update fuel dirtValue greaseValue = Ok r /\ 0 <= cog r <= 60.
Proof.
  intro Hfuel. exists (inferenceOf dirtValue greaseValue).
  split; [now apply update_value|].
  cbn [inferenceOf cog]. apply centroid_bounds; [lra|].
  unfold surfaceOf. apply Forall_map, Forall_forall. intros t Ht. simpl.
  split; [exact (referenceTimes_range t Ht) | apply aggregatedDegree_nonneg].
Qed.

Lemma output_in_domain_witness :
  exists r, update 122 200 200 = Ok r /\ 0 <= cog r <= 60.
Proof. apply (output_in_domain 122 200 200). lia. Defined.

(** ** Concrete scenarios *)

(** The sums, hence the centroid, do not depend on how the coordinates of
    the points are represented as fractions. *)
Lemma sums_reduce (pts : list point) :
  numeratorOf (map reducePoint pts) == numeratorOf pts /\
  denominatorOf (map reducePoint pts) == denominatorOf pts.
Proof.
  unfold numeratorOf, denominatorOf.
  induction pts as [|p pts [IHn IHd]]; simpl; [split; reflexivity|].
  rewrite IHn, IHd, !Qred_correct. split; reflexivity.
Qed.

Lemma centroid_reduce (pts : list point) :
  centroid pts == centroid (map reducePoint pts).
Proof.
  destruct (sums_reduce pts) as [Hn Hd].
  destruct (centroid_cases pts) as [H0 H1].
  destruct (centroid_cases (map reducePoint pts)) as [R0 R1].
  destruct (Qeq_dec (denominatorOf pts) 0) as [E | E].
  - rewrite (H0 E). rewrite R0; [reflexivity | now rewrite Hd].
  - rewrite (H1 E). rewrite R1; [now rewrite Hn, Hd | now rewrite Hd].
Qed.

(** C7: with inputs 0 and 0, the activation of VS is 1 and that of every
    other output term is 0; the crisp output is 19/6 (about 3.17): it lies
    on the VS triangle, between its peak 0 and the midpoint 5 towards the
    next peak, that of S at 10. *)
Theorem scenario_both_zero (fuel : nat) :
  (122 <= fuel)%nat ->
  exists r, update fuel 0 0 = Ok r /\
    (exists vs s m l vl,
       outputActivation r
         = [("VS", vs); ("S", s); ("M", m); ("L", l); ("VL", vl)] /\
       vs == 1 /\ s == 0 /\ m == 0 /\ l == 0 /\ vl == 0) /\
    cog r == 19 # 6 /\
    lookup timeMf "VS" = Some (-10, 0, 10) /\
    lookup timeMf "S" = Some (0, 10, 25) /\
    0 <= cog r < (0 + 10) / 2.
Proof.
  intro Hfuel. exists (inferenceOf 0 0). split; [now apply update_value|].
  assert (Hcog : cog (inferenceOf 0 0) == 19 # 6).
  { cbn [inferenceOf cog]. rewrite centroid_reduce.
    apply Qeq_bool_iff. vm_compute. reflexivity. }
  split; [|split; [exact Hcog|split; [reflexivity|split; [reflexivity|]]]].
  - cbn [inferenceOf outputActivation]. do 5 eexists.
    split; [reflexivity|].
    repeat split; apply Qeq_bool_iff; vm_compute; reflexivity.
  - rewrite Hcog. split; [lra|]. apply Qlt_alt. reflexivity.
Qed.

Lemma scenario_both_zero_witness :
  exists r, update 122 0 0 = Ok r /\
    (exists vs s m l vl,
       outputActivation r
         = [("VS", vs); ("S", s); ("M", m); ("L", l); ("VL", vl)] /\
       vs == 1 /\ s == 0 /\ m == 0 /\ l == 0 /\ vl == 0) /\
    cog r == 19 # 6 /\
    lookup timeMf "VS" = Some (-10, 0, 10) /\
    lookup timeMf "S" = Some (0, 10, 25) /\
    0 <= cog r < (0 + 10) / 2.
Proof. apply (scenario_both_zero 122). lia. Defined.




(** ** Rounded arithmetic *)






(** The same run, with the three doubles added as rational numbers: the
    sum is not 1, and it is within 3 * 2^-53 of 1. *)
Example partition_of_unity_close_at_7_7 :
  let '(d1, d2, d3) := degrees64 0x1.ecccccccccccdp+2%float in
  ~ exactValue d1 + exactValue d2 + exactValue d3 == 1 /\
  Qabs (exactValue d1 + exactValue d2 + exactValue d3 - 1)
  <= 3 * unitRoundoff.
Proof.
  vm_compute. split; [discriminate | intro H; discriminate].
Qed.



(** Both branches of the defuzzification on concrete inputs: far outside
    every support the fallback is returned; inside, the centroid. *)
Example update_outside_supports :
  exists r, update 122 1000 1000 = Ok r /\
            allZero (dirtDegrees r) /\ allZero (greaseDegrees r) /\
            cog r = 30.
Proof.
  exists (inferenceOf 1000 1000). split; [apply update_value; lia|].
  assert (Hd : allZero (degreesOf dirtMf 1000))
    by (repeat (apply Forall_cons; [reflexivity|]); apply Forall_nil).
  assert (Hg : allZero (degreesOf greaseMf 1000))
    by (repeat (apply Forall_cons; [reflexivity|]); apply Forall_nil).
  split; [exact Hd|]. split; [exact Hg|].
  apply (fallback_when_all_zero _ _ Hd Hg).
Qed.

Example update_inside_supports :
  exists r, update 122 37 155 = Ok r /\ cog r == 1605503 # 57658.
Proof.
  exists (inferenceOf 37 155). split; [apply update_value; lia|].
  cbn [inferenceOf cog]. rewrite centroid_reduce.
  apply Qeq_bool_iff. vm_compute. reflexivity.
Qed.

(** * Further properties of the code *)

(** ** triangleMf on arbitrary triples *)


Lemma triangleValue_support (x a b c : number) :
  0 < triangleValue x (a, b, c) <-> a < x /\ x < c.
Proof.
  unfold triangleValue.
  compare_all; simpl; split; intro H; try lra; try (split; lra);
    apply Qlt_shift_div_l; lra.
Qed.




Example fallthrough_on_nan :
  triangleBranch64 PrimFloat.nan (0, 1, 2)%float = Fallthrough /\
  triangleBranch64 1%float (0, PrimFloat.nan, 2)%float = Fallthrough.
Proof. split; vm_compute; reflexivity. Qed.



(** ** Fuzzification outside the supports *)

Lemma referenceDegrees_zero (v : number) :
  (triangleValue v (-100, 0, 100) == 0 /\
   triangleValue v (0, 100, 200) == 0 /\
   triangleValue v (100, 200, 300) == 0) <->
  (v <= -100 \/ 300 <= v).
Proof.
  pose proof (triangleValue_support v (-100) 0 100) as H1.
  pose proof (triangleValue_support v 0 100 200) as H2.
  pose proof (triangleValue_support v 100 200 300) as H3.
  pose proof (triangleValue_range v (-100, 0, 100)) as R1.
  pose proof (triangleValue_range v (0, 100, 200)) as R2.
  pose proof (triangleValue_range v (100, 200, 300)) as R3.
  split.
  - intros (E1 & E2 & E3).
    destruct (Qlt_le_dec (-100) v) as [Hl|Hl]; [|now left].
    destruct (Qlt_le_dec v 300) as [Hr|Hr]; [|now right].
    exfalso.
    destruct (Qlt_le_dec v 100) as [Ha|Ha].
    + assert (0 < triangleValue v (-100, 0, 100)) by (apply H1; split; lra). lra.
    + destruct (Qlt_le_dec 100 v) as [Hb|Hb].
      * assert (0 < triangleValue v (100, 200, 300)) by (apply H3; split; lra). lra.
      * assert (0 < triangleValue v (0, 100, 200)) by (apply H2; split; lra). lra.
  - intro Hout.
    assert (~ 0 < triangleValue v (-100, 0, 100)) by (rewrite H1; lra).
    assert (~ 0 < triangleValue v (0, 100, 200)) by (rewrite H2; lra).
    assert (~ 0 < triangleValue v (100, 200, 300)) by (rewrite H3; lra).
    repeat split; lra.
Qed.

(** X5: the three degrees of an input are all zero exactly when the input
    lies outside the open interval (-100, 300) covered by the three
    triangles; this holds for the dirt and for the grease variable. *)
Theorem fuzzification_all_zero (v : number) :
  (exists sd md ld,
     fuzzifyDirt v = Ok [("SD", sd); ("MD", md); ("LD", ld)] /\
     ((sd == 0 /\ md == 0 /\ ld == 0) <-> (v <= -100 \/ 300 <= v))) /\
  (exists ng mg lg,
     fuzzifyGrease v = Ok [("NG", ng); ("MG", mg); ("LG", lg)] /\
     ((ng == 0 /\ mg == 0 /\ lg == 0) <-> (v <= -100 \/ 300 <= v))).
Proof.
  split.
  - rewrite fuzzifyDirt_value. do 3 eexists. split; [reflexivity|].
    apply referenceDegrees_zero.
  - rewrite fuzzifyGrease_value. do 3 eexists. split; [reflexivity|].
    apply referenceDegrees_zero.
Qed.

(** ** When the fallback is taken *)

Lemma Qmin_zero_r (p q : number) : 0 <= p -> q == 0 -> Qmin p q == 0.
Proof. intros Hp Hq. destruct (Q.min_spec p q) as [[H E] | [H E]]; lra. Qed.

Lemma lookup_In {V : Type} (o : object V) (k : string) (v : V) :
  lookup o k = Some v -> In (k, v) o.
Proof.
  induction o as [|[k' v'] o IH]; simpl; [discriminate|].
  destruct (String.eqb k' k) eqn:E.
  - intro H. inversion H; subst. apply String.eqb_eq in E. subst. now left.
  - intro H. right. now apply IH.
Qed.

Lemma runningMax_pos (l : list number) (s : number) :
  In s l -> 0 < s -> 0 < runningMax l 0.
Proof.
  intros Hin Hs. destruct (runningMax_spec l 0) as (_ & Hall & _).
  rewrite Forall_forall in Hall. specialize (Hall s Hin). lra.
Qed.

Lemma aggregatedDegree_pos (act : object number) (t : number) (term : string)
    (a : number) (points : Triangle) :
  lookup act term = Some a -> lookup timeMf term = Some points ->
  0 < a -> 0 < triangleValue t points -> 0 < aggregatedDegree act t.
Proof.
  intros Ha Hp Hpos Hmf. unfold aggregatedDegree.
  apply (runningMax_pos _ (Qmin a (triangleValue t points))).
  - unfold clippedValues. apply lookup_In in Hp.
    apply (in_map (fun entry =>
                     match lookup act (fst entry) with
                     | Some a0 => Qmin a0 (triangleValue t (snd entry))
                     | None => 0
                     end)) in Hp.
    simpl in Hp. now rewrite Ha in Hp.
  - now apply Q.min_glb_lt.
Qed.

Lemma Qsum_nonneg (l : list number) :
  Forall (fun s => 0 <= s) l -> 0 <= Qsum l.
Proof.
  induction 1 as [|s l Hs _ IH]; simpl; [lra|]. lra.
Qed.

Lemma Qsum_pos (l : list number) (s : number) :
  Forall (fun u => 0 <= u) l -> In s l -> 0 < s -> 0 < Qsum l.
Proof.
  intros Hall. induction Hall as [|u l Hu Hall IH]; intros Hin Hs.
  - contradiction.
  - simpl. pose proof (Qsum_nonneg l Hall) as Hl.
    destruct Hin as [-> | Hin]; [lra|]. specialize (IH Hin Hs). lra.
Qed.

Lemma denominatorOf_pos (f : number -> number) (ts : list number) (t : number) :
  (forall u, 0 <= f u) -> In t ts -> 0 < f t ->
  0 < denominatorOf (surfaceOf f ts).
Proof.
  intros Hf Hin Ht. unfold denominatorOf, surfaceOf. rewrite map_map. simpl.
  apply (Qsum_pos _ (f t)); [|now apply in_map|exact Ht].
  apply Forall_map, Forall_forall. intros u _. apply Hf.
Qed.

(** A sample position at which the triangle of an output term is met with
    positive degree: its peak, which is one of the 121 positions. *)
Lemma peak_sampled (term : string) (points : Triangle) :
  lookup timeMf term = Some points ->
  exists t, In t referenceTimes /\ 0 < triangleValue t points.
Proof.
  intro H. apply lookup_In in H. simpl in H.
  assert (Hnth : forall k, (k < 121)%nat -> In (nth k referenceTimes 0) referenceTimes).
  { intros k Hk. apply nth_In. unfold referenceTimes.
    now rewrite sampleTimes_length. }
  decompose [or] H; clear H; try contradiction;
    match goal with E : (_, _) = (_, _) |- _ => injection E as <- <- end.
  - exists (nth 0 referenceTimes 0). split; [apply Hnth; lia|].
    apply Qlt_alt. vm_compute. reflexivity.
  - exists (nth 20 referenceTimes 0). split; [apply Hnth; lia|].
    apply Qlt_alt. vm_compute. reflexivity.
  - exists (nth 50 referenceTimes 0). split; [apply Hnth; lia|].
    apply Qlt_alt. vm_compute. reflexivity.
  - exists (nth 80 referenceTimes 0). split; [apply Hnth; lia|].
    apply Qlt_alt. vm_compute. reflexivity.
  - exists (nth 120 referenceTimes 0). split; [apply Hnth; lia|].
    apply Qlt_alt. vm_compute. reflexivity.
Qed.

Lemma degreesOf_nonneg (mf : object Triangle) (v : number) :
  Forall (fun kv => 0 <= snd kv) (degreesOf mf v).
Proof.
  unfold degreesOf. apply Forall_map, Forall_forall. intros [k points] _.
  simpl. apply triangleValue_range.
Qed.

Lemma strengthsFor_zero_one_side (dd gd : object number) (term : string) :
  (allZero dd /\ Forall (fun kv => 0 <= snd kv) gd) \/
  (Forall (fun kv => 0 <= snd kv) dd /\ allZero gd) ->
  Forall (fun s => s == 0) (strengthsFor dd gd term).
Proof.
  intro Hside. unfold strengthsFor. apply Forall_flat_map.
  apply Forall_forall. intros [[d g] o] _.
  destruct (String.eqb o term); [|constructor].
  destruct (lookup dd d) as [dv|] eqn:Ed; [|constructor].
  destruct (lookup gd g) as [gv|] eqn:Eg; constructor; [|constructor].
  destruct Hside as [[Hz Hn] | [Hn Hz]].
  - apply Qmin_zero_l.
    + exact (lookup_Forall (fun v => v == 0) dd d dv Hz Ed).
    + exact (lookup_Forall (fun v => 0 <= v) gd g gv Hn Eg).
  - apply Qmin_zero_r.
    + exact (lookup_Forall (fun v => 0 <= v) dd d dv Hn Ed).
    + exact (lookup_Forall (fun v => v == 0) gd g gv Hz Eg).
Qed.

Lemma degreesOf_zero_outside (v : number) :
  v <= -100 \/ 300 <= v ->
  allZero (degreesOf dirtMf v) /\ allZero (degreesOf greaseMf v).
Proof.
  intro Hout. apply referenceDegrees_zero in Hout as (E1 & E2 & E3).
  split; repeat (apply Forall_cons; [assumption|]); apply Forall_nil.
Qed.

Lemma degreesOf_pos_inside (v : number) :
  -100 < v -> v < 300 ->
  (exists term dv, In term dirtTerms /\
     lookup (degreesOf dirtMf v) term = Some dv /\ 0 < dv) /\
  (exists term gv, In term greaseTerms /\
     lookup (degreesOf greaseMf v) term = Some gv /\ 0 < gv).
Proof.
  intros Hl Hr.
  pose proof (triangleValue_support v (-100) 0 100) as H1.
  pose proof (triangleValue_support v 0 100 200) as H2.
  pose proof (triangleValue_support v 100 200 300) as H3.
  destruct (Qlt_le_dec v 100) as [Ha|Ha];
    [|destruct (Qlt_le_dec 100 v) as [Hb|Hb]].
  - assert (0 < triangleValue v (-100, 0, 100)) by (apply H1; split; lra).
    split; [exists "SD" | exists "NG"]; eexists;
      (split; [simpl; tauto | split; [reflexivity | assumption]]).
  - assert (0 < triangleValue v (100, 200, 300)) by (apply H3; split; lra).
    split; [exists "LD" | exists "LG"]; eexists;
      (split; [simpl; tauto | split; [reflexivity | assumption]]).
  - assert (0 < triangleValue v (0, 100, 200)) by (apply H2; split; lra).
    split; [exists "MD" | exists "MG"]; eexists;
      (split; [simpl; tauto | split; [reflexivity | assumption]]).
Qed.

(** Every pair of input terms has a rule, and its consequent is an output
    term with a triangle. *)
Lemma rule_for_every_pair (d g : string) :
  In d dirtTerms -> In g greaseTerms ->
  exists o points,
    In (d, g, o) ruleList /\ In o timeTerms /\ lookup timeMf o = Some points.
Proof.
  intros Hd Hg. simpl in Hd, Hg.
  destruct Hd as [<- | [<- | [<- | []]]];
    destruct Hg as [<- | [<- | [<- | []]]];
    do 2 eexists;
    (split; [simpl; repeat (first [left; reflexivity | right])|]);
    (split; [simpl; repeat (first [left; reflexivity | right])|]);
    reflexivity.
Qed.

Lemma activationOf_lookup (dd gd : object number) (o : string) :
  In o timeTerms ->
  lookup (activationOf dd gd) o = Some (runningMax (strengthsFor dd gd o) 0).
Proof.
  intro H. simpl in H. decompose [or] H; subst; try contradiction; reflexivity.
Qed.

Lemma activationOf_pos (dd gd : object number) (d g o : string)
    (dv gv : number) :
  In (d, g, o) ruleList ->
  lookup dd d = Some dv -> lookup gd g = Some gv -> 0 < dv -> 0 < gv ->
  0 < runningMax (strengthsFor dd gd o) 0.
Proof.
  intros Hrule Hd Hg Hdv Hgv. apply (runningMax_pos _ (Qmin dv gv)).
  - unfold strengthsFor. apply in_flat_map. exists (d, g, o).
    split; [exact Hrule|]. rewrite String.eqb_refl, Hd, Hg. now left.
  - now apply Q.min_glb_lt.
Qed.

Lemma activationOf_zero_when (dd gd : object number) :
  (forall term, Forall (fun s => s == 0) (strengthsFor dd gd term)) ->
  allZero (activationOf dd gd).
Proof.
  intro H. unfold allZero, activationOf.
  apply Forall_map, Forall_forall. intros term _. simpl.
  apply runningMax_zero, H.
Qed.

(** X6: the denominator of the centroid is zero, and the fallback 30 is
    returned, exactly when at least one of the two inputs lies outside the
    open interval (-100, 300); a single input outside suffices. *)
Theorem fallback_exactly_outside (fuel : nat) (dirtValue greaseValue : number) :
  (122 <= fuel)%nat ->
  exists r, update fuel dirtValue greaseValue = Ok r /\
    (denominatorOf (aggregatedPoints r) == 0 <->
     (dirtValue <= -100 \/ 300 <= dirtValue \/
      greaseValue <= -100 \/ 300 <= greaseValue)) /\
    (denominatorOf (aggregatedPoints r) == 0 -> cog r = 30).
Proof.
  intro Hfuel. exists (inferenceOf dirtValue greaseValue).
  split; [now apply update_value|].
  cbn [inferenceOf aggregatedPoints cog].
  split; [|apply centroid_cases]. split.
  - intro Hzero.
    destruct (Qlt_le_dec (-100) dirtValue) as [H1|H1]; [|tauto].
    destruct (Qlt_le_dec dirtValue 300) as [H2|H2]; [|tauto].
    destruct (Qlt_le_dec (-100) greaseValue) as [H3|H3]; [|tauto].
    destruct (Qlt_le_dec greaseValue 300) as [H4|H4]; [|tauto].
    exfalso.
    destruct (degreesOf_pos_inside dirtValue H1 H2)
      as ((d & dv & Hd & Hdl & Hdv) & _).
    destruct (degreesOf_pos_inside greaseValue H3 H4)
      as (_ & (g & gv & Hg & Hgl & Hgv)).
    destruct (rule_for_every_pair d g Hd Hg) as (o & points & Hrule & Ho & Hp).
    destruct (peak_sampled o points Hp) as (t & Ht & Hmf).
    pose proof (activationOf_pos _ _ d g o dv gv Hrule Hdl Hgl Hdv Hgv) as Hact.
    pose proof (aggregatedDegree_pos _ t o _ points
                  (activationOf_lookup _ _ o Ho) Hp Hact Hmf) as Hdeg.
    pose proof (denominatorOf_pos _ referenceTimes t
                  (aggregatedDegree_nonneg _) Ht Hdeg) as Hden.
    rewrite Hzero in Hden. lra.
  - intro Hout. apply denominatorOf_zero. intro t.
    apply runningMax_zero, clippedValues_zero, activationOf_zero_when.
    intro term. apply strengthsFor_zero_one_side.
    destruct Hout as [H | [H | [H | H]]].
    + left. split; [apply degreesOf_zero_outside; tauto | apply degreesOf_nonneg].
    + left. split; [apply degreesOf_zero_outside; tauto | apply degreesOf_nonneg].
    + right. split; [apply degreesOf_nonneg | apply degreesOf_zero_outside; tauto].
    + right. split; [apply degreesOf_nonneg | apply degreesOf_zero_outside; tauto].
Qed.

Lemma fallback_exactly_outside_witness :
  exists r, update 122 50 350 = Ok r /\
    (denominatorOf (aggregatedPoints r) == 0 <->
     (50 <= -100 \/ 300 <= 50 \/ 350 <= -100 \/ 300 <= 350)) /\
    (denominatorOf (aggregatedPoints r) == 0 -> cog r = 30).
Proof. apply (fallback_exactly_outside 122 50 350). lia. Defined.

(** ** Symmetry in the two inputs *)

Lemma runningMax_le (l l' : list number) :
  (forall s, In s l -> exists s', In s' l' /\ s <= s') ->
  runningMax l 0 <= runningMax l' 0.
Proof.
  intro H. destruct (runningMax_spec l 0) as (_ & _ & [E | Hin]).
  - rewrite E. apply runningMax_nonneg.
  - destruct (H _ Hin) as (s' & Hin' & Hle).
    destruct (runningMax_spec l' 0) as (_ & Hall & _).
    rewrite Forall_forall in Hall. specialize (Hall s' Hin'). lra.
Qed.

Lemma Forall2_Qeq_In (l l' : list number) (s : number) :
  Forall2 Qeq l l' -> In s l -> exists s', In s' l' /\ s == s'.
Proof.
  induction 1 as [|u u' l l' E _ IH]; intros Hin; [contradiction|].
  destruct Hin as [<- | Hin].
  - exists u'. split; [now left | exact E].
  - destruct (IH Hin) as (s' & Hin' & E'). exists s'. split; [now right | exact E'].
Qed.

Lemma Forall2_Qeq_sym (l l' : list number) :
  Forall2 Qeq l l' -> Forall2 Qeq l' l.
Proof. induction 1; constructor; [now symmetry | assumption]. Qed.

Lemma runningMax_pointwise (l l' : list number) :
  Forall2 Qeq l l' -> runningMax l 0 == runningMax l' 0.
Proof.
  intro H. apply Qle_antisym; apply runningMax_le; intros s Hin.
  - destruct (Forall2_Qeq_In _ _ s H Hin) as (s' & Hin' & E).
    exists s'. split; [exact Hin' | lra].
  - destruct (Forall2_Qeq_In _ _ s (Forall2_Qeq_sym _ _ H) Hin) as (s' & Hin' & E).
    exists s'. split; [exact Hin' | lra].
Qed.

Lemma sameObject_lookup (o o' : object number) (k : string) :
  sameObject o o' ->
  match lookup o k, lookup o' k with
  | Some v, Some v' => v == v'
  | None, None => True
  | _, _ => False
  end.
Proof.
  induction 1 as [|[k1 v1] [k2 v2] o o' [Hk Hv] _ IH]; simpl; [exact I|].
  simpl in Hk, Hv. subst k2. destruct (String.eqb k1 k); [exact Hv | exact IH].
Qed.

Lemma aggregatedDegree_sameObject (act act' : object number) (t : number) :
  sameObject act act' -> aggregatedDegree act t == aggregatedDegree act' t.
Proof.
  intro H. unfold aggregatedDegree. apply runningMax_pointwise.
  unfold clippedValues. induction timeMf as [|[term points] mf IH]; simpl.
  - constructor.
  - constructor; [|exact IH].
    pose proof (sameObject_lookup act act' term H) as Hl.
    destruct (lookup act term), (lookup act' term); try contradiction.
    + now rewrite Hl.
    + reflexivity.
Qed.

Lemma sums_pointwise (f f' : number -> number) (ts : list number) :
  (forall t, f t == f' t) ->
  numeratorOf (surfaceOf f ts) == numeratorOf (surfaceOf f' ts) /\
  denominatorOf (surfaceOf f ts) == denominatorOf (surfaceOf f' ts).
Proof.
  intro H. unfold numeratorOf, denominatorOf, surfaceOf. rewrite !map_map.
  simpl. induction ts as [|t ts [IHn IHd]]; simpl; [split; reflexivity|].
  rewrite IHn, IHd, (H t). split; reflexivity.
Qed.

Lemma centroid_ext (pts pts' : list point) :
  numeratorOf pts == numeratorOf pts' ->
  denominatorOf pts == denominatorOf pts' ->
  centroid pts == centroid pts'.
Proof.
  intros Hn Hd.
  destruct (centroid_cases pts) as [H0 H1].
  destruct (centroid_cases pts') as [R0 R1].
  destruct (Qeq_dec (denominatorOf pts) 0) as [E | E].
  - rewrite (H0 E). rewrite R0; [reflexivity | now rewrite <- Hd].
  - rewrite (H1 E). rewrite R1; [now rewrite Hn, Hd | now rewrite <- Hd].
Qed.

Lemma activationOf_exchange (a1 a2 a3 b1 b2 b3 : number) :
  sameObject
    (activationOf [("SD", a1); ("MD", a2); ("LD", a3)]
                  [("NG", b1); ("MG", b2); ("LG", b3)])
    (activationOf [("SD", b1); ("MD", b2); ("LD", b3)]
                  [("NG", a1); ("MG", a2); ("LG", a3)]).
Proof.
  unfold sameObject, activationOf, timeTerms. cbn [map].
  repeat (apply Forall2_cons; [split; [reflexivity|]|]); [..|apply Forall2_nil];
    cbn [snd]; apply Qle_antisym; apply runningMax_le; intros s Hs;
    simpl in Hs;
    repeat match goal with
      | H : _ \/ _ |- _ => destruct H
      | H : False |- _ => contradiction
      end;
    subst s;
    first
      [ eexists; split;
        [left; reflexivity | rewrite Q.min_comm; apply Qle_refl]
      | eexists; split;
        [right; left; reflexivity | rewrite Q.min_comm; apply Qle_refl]
      | eexists; split;
        [right; right; left; reflexivity | rewrite Q.min_comm; apply Qle_refl] ].
Qed.

Lemma activationOf_swap (p q : number) :
  sameObject (activationOf (degreesOf dirtMf p) (degreesOf greaseMf q))
             (activationOf (degreesOf dirtMf q) (degreesOf greaseMf p)).
Proof. apply activationOf_exchange. Qed.

(** X7: exchanging the two inputs does not change the output: the two
    variables have the same triangles and the rule table is symmetric. *)
Theorem output_symmetric (fuel : nat) (p q : number) :
  (122 <= fuel)%nat ->
  exists r r',
    update fuel p q = Ok r /\ update fuel q p = Ok r' /\ cog r == cog r'.
Proof.
  intro Hfuel. exists (inferenceOf p q), (inferenceOf q p).
  split; [now apply update_value|]. split; [now apply update_value|].
  cbn [inferenceOf cog].
  apply centroid_ext; apply sums_pointwise; intro t;
    apply aggregatedDegree_sameObject, activationOf_swap.
Qed.

Lemma output_symmetric_witness :
  exists r r',
    update 122 30 170 = Ok r /\ update 122 170 30 = Ok r' /\ cog r == cog r'.
Proof. apply (output_symmetric 122 30 170). lia. Defined.

(** ** Clipping *)

Lemma clippedValues_le (act : object number) (t h : number) :
  Forall (fun kv => snd kv <= h) act -> 0 <= h ->
  Forall (fun s => s <= h /\ s <= 1) (clippedValues act t).
Proof.
  intros Hact Hh. unfold clippedValues. apply Forall_map, Forall_forall.
  intros [term points] _. simpl.
  destruct (lookup act term) as [a|] eqn:E; [|split; lra].
  pose proof (lookup_Forall (fun v => v <= h) act term a Hact E) as Ha.
  cbv beta in Ha.
  pose proof (triangleValue_range t points) as Hr.
  pose proof (Q.le_min_l a (triangleValue t points)).
  pose proof (Q.le_min_r a (triangleValue t points)). split; lra.
Qed.

(** X11: the aggregated surface never rises above the largest activation
    level, nor above 1, and never falls below 0, whatever the activation
    values are. *)
Theorem surface_clipped (fuel : nat) (act : object number) (h : number) :
  keys act = timeTerms -> Forall (fun kv => snd kv <= h) act -> 0 <= h ->
  (122 <= fuel)%nat ->
  exists pts, aggregate fuel act = Ok pts /\
    Forall (fun p => 0 <= y p /\ y p <= h /\ y p <= 1) pts.
Proof.
  intros Hk Hact Hh Hfuel.
  exists (surfaceOf (aggregatedDegree act) referenceTimes).
  split; [now apply aggregate_value|].
  unfold surfaceOf. apply Forall_map, Forall_forall. intros t _. simpl.
  split; [apply aggregatedDegree_nonneg|].
  unfold aggregatedDegree.
  destruct (runningMax_spec (clippedValues act t) 0) as (_ & _ & [E | Hin]).
  - rewrite E. split; lra.
  - pose proof (clippedValues_le act t h Hact Hh) as Hc.
    rewrite Forall_forall in Hc. exact (Hc _ Hin).
Qed.

Lemma surface_clipped_witness :
  exists pts,
    aggregate 122 [("VS", 0); ("S", 1 # 4); ("M", 3); ("L", -2); ("VL", 0)]
      = Ok pts /\
    Forall (fun p => 0 <= y p /\ y p <= 3 /\ y p <= 1) pts.
Proof.
  apply (surface_clipped 122 _ 3); [reflexivity | | lra | lia].
  repeat (apply Forall_cons; [simpl; lra|]). apply Forall_nil.
Defined.

(** ** The plotted membership curves *)

Lemma setHas_true (s : NumberSet) (v : number) :
  setHas s v = true -> exists u, In u s /\ u == v.
Proof.
  unfold setHas. intro H. apply existsb_exists in H as (u & Hin & E).
  exists u. split; [exact Hin|]. now destruct (strictEq_reflect u v).
Qed.

Lemma setHas_false (s : NumberSet) (v : number) :
  setHas s v = false -> Forall (fun u => ~ u == v) s.
Proof.
  unfold setHas. intro H. apply Forall_forall. intros u Hin E.
  assert (Ht : existsb (fun u0 => strictEq u0 v) s = true).
  { apply existsb_exists. exists u. split; [exact Hin|].
    now destruct (strictEq_reflect u v). }
  congruence.
Qed.

Lemma distinct_snoc (s : list number) (v : number) :
  distinct s -> Forall (fun u => ~ u == v) s -> distinct (s ++ [v]).
Proof.
  unfold distinct. induction 1 as [|u s Hs IH Hu]; intro Hv; simpl.
  - repeat constructor.
  - inversion Hv as [|u' s' Huv Hrest]; subst. constructor.
    + now apply IH.
    + apply Forall_app. split; [exact Hu | now repeat constructor].
Qed.

Lemma conditional_add (cond : bool) (s : NumberSet) (v : number) :
  distinct s ->
  let s' := if cond then setAdd s v else s in
  distinct s' /\
  (forall u, In u s -> In u s') /\
  (forall u, In u s' -> In u s \/ (cond = true /\ u = v)) /\
  (cond = true -> exists u, In u s' /\ u == v) /\
  (List.length s <= List.length s' <= S (List.length s))%nat.
Proof.
  intros Hs s'. subst s'. destruct cond.
  - unfold setAdd. destruct (setHas s v) eqn:E.
    + split; [exact Hs|]. split; [auto|]. split; [auto|].
      split; [|lia]. intros _. now apply setHas_true.
    + split; [|split; [|split; [|split]]].
      * apply distinct_snoc; [exact Hs | now apply setHas_false].
      * intros u Hu. apply in_or_app. now left.
      * intros u Hu. apply in_app_or in Hu as [Hu | [<- | []]]; auto.
      * intros _. exists v. split; [|reflexivity].
        apply in_or_app. right. now left.
      * rewrite length_app. simpl. lia.
  - split; [exact Hs|]. split; [auto|]. split; [auto|].
    split; [discriminate | lia].
Qed.

Lemma plotted_value (points : Triangle) (xs : list number) :
  mapM (fun xc => yc <- triangleMf xc points ;; Ok {| x := xc; y := yc |}) xs
  = Ok (map (fun xc => {| x := xc; y := triangleValue xc points |}) xs).
Proof.
  induction xs as [|xc xs IH]; simpl; [reflexivity|].
  rewrite triangleMf_value. cbn [bind]. rewrite IH. reflexivity.
Qed.

Lemma insertSorted_In {A : Type} (compareFn : A -> A -> number) (p r : A)
    (l : list A) :
  In r (insertSorted compareFn p l) <-> r = p \/ In r l.
Proof.
  induction l as [|q l IH]; simpl.
  - split; intros [H | H]; auto.
  - destruct (compareFn p q <=? 0); simpl; [|rewrite IH]; split;
      intro H; decompose [or] H; auto.
Qed.

Lemma sort_In {A : Type} (compareFn : A -> A -> number) (r : A) (l : list A) :
  In r (sort compareFn l) <-> In r l.
Proof.
  induction l as [|p l IH]; simpl; [tauto|].
  rewrite insertSorted_In, IH. split; intros [H | H]; auto.
Qed.

Lemma insertSorted_length {A : Type} (compareFn : A -> A -> number) (p : A)
    (l : list A) :
  List.length (insertSorted compareFn p l) = S (List.length l).
Proof.
  induction l as [|q l IH]; simpl; [reflexivity|].
  destruct (compareFn p q <=? 0); simpl; [reflexivity | now rewrite IH].
Qed.

Lemma sort_length {A : Type} (compareFn : A -> A -> number) (l : list A) :
  List.length (sort compareFn l) = List.length l.
Proof.
  induction l as [|p l IH]; simpl; [reflexivity|].
  now rewrite insertSorted_length, IH.
Qed.

Lemma insertSorted_increasing (p : point) (l : list point) :
  increasing l -> Forall (fun q => ~ x q == x p) l ->
  increasing (insertSorted (fun p1 p2 => x p1 - x p2) p l).
Proof.
  unfold increasing. induction 1 as [|q l Hl IH Hq]; intro Hp; simpl.
  - repeat constructor.
  - inversion Hp as [|q' l' Hqp Hrest]; subst.
    destruct (leb_reflect (x p - x q) 0) as [Hle | Hgt].
    + assert (Hlt : x p < x q) by lra.
      constructor; [now constructor|].
      constructor; [exact Hlt|].
      apply Forall_forall. intros r Hr.
      rewrite Forall_forall in Hq. specialize (Hq r Hr). lra.
    + constructor; [now apply IH|].
      apply Forall_forall. intros r Hr. apply insertSorted_In in Hr as [-> | Hr].
      * lra.
      * rewrite Forall_forall in Hq. now apply Hq.
Qed.

Lemma sort_increasing (pts : list point) :
  distinct (map x pts) -> increasing (sort (fun p1 p2 => x p1 - x p2) pts).
Proof.
  unfold distinct. induction pts as [|p pts IH]; simpl; intro H.
  - constructor.
  - inversion H as [|u l Hl Hu]; subst.
    apply insertSorted_increasing; [now apply IH|].
    apply Forall_forall. intros q Hq E. apply sort_In in Hq.
    rewrite Forall_forall in Hu. apply (Hu (x q)); [now apply in_map|].
    now symmetry.
Qed.

(** What [generateMfPoints] returns: the sorted points over a set of
    distinct coordinates. *)
Lemma generateMfPoints_value (points : Triangle) (minX maxX : number) :
  exists xs,
    generateMfPoints points minX maxX
    = Ok (sort (fun p1 p2 => x p1 - x p2)
               (map (fun xc => {| x := xc; y := triangleValue xc points |}) xs))
    /\ distinct xs
    /\ (forall u, In u xs -> isCoordinate points minX maxX u)
    /\ (forall v, isCoordinate points minX maxX v ->
                  exists u, In u xs /\ u == v)
    /\ (1 <= List.length xs <= 5)%nat.
Proof.
  destruct points as [[a b] c]. unfold generateMfPoints, newSet.
  cbn [fold_left].
  assert (H0 : distinct []) by constructor.
  destruct (conditional_add true [] minX H0) as (D1 & K1 & I1 & P1 & L1).
  cbv zeta in D1, K1, I1, P1, L1.
  change (setAdd [] minX) with (if true then setAdd [] minX else []).
  set (s1 := if true then setAdd [] minX else []) in *.
  destruct (conditional_add true s1 maxX D1) as (D2 & K2 & I2 & P2 & L2).
  cbv zeta in D2, K2, I2, P2, L2.
  change (setAdd s1 maxX) with (if true then setAdd s1 maxX else s1).
  set (s2 := if true then setAdd s1 maxX else s1) in *.
  destruct (conditional_add ((a >=? minX) && (a <=? maxX)) s2 a D2)
    as (D3 & K3 & I3 & P3 & L3).
  cbv zeta in D3, K3, I3, P3, L3.
  set (s3 := if (a >=? minX) && (a <=? maxX) then setAdd s2 a else s2) in *.
  destruct (conditional_add ((b >=? minX) && (b <=? maxX)) s3 b D3)
    as (D4 & K4 & I4 & P4 & L4).
  cbv zeta in D4, K4, I4, P4, L4.
  set (s4 := if (b >=? minX) && (b <=? maxX) then setAdd s3 b else s3) in *.
  destruct (conditional_add ((c >=? minX) && (c <=? maxX)) s4 c D4)
    as (D5 & K5 & I5 & P5 & L5).
  cbv zeta in D5, K5, I5, P5, L5.
  set (s5 := if (c >=? minX) && (c <=? maxX) then setAdd s4 c else s4) in *.
  assert (Hcond : forall v, (v >=? minX) && (v <=? maxX) = true <->
                            minX <= v /\ v <= maxX).
  { intro v. destruct (geb_reflect v minX), (leb_reflect v maxX); simpl;
      split; intro H; try discriminate; tauto. }
  exists s5. split; [|split; [exact D5|split; [|split]]].
  - rewrite plotted_value. reflexivity.
  - intros u Hu. unfold isCoordinate.
    apply I5 in Hu as [Hu | [Hc ->]]; [|apply Hcond in Hc; tauto].
    apply I4 in Hu as [Hu | [Hc ->]]; [|apply Hcond in Hc; tauto].
    apply I3 in Hu as [Hu | [Hc ->]]; [|apply Hcond in Hc; tauto].
    apply I2 in Hu as [Hu | [_ ->]]; [|tauto].
    apply I1 in Hu as [[] | [_ ->]]. tauto.
  - intros v Hv. unfold isCoordinate in Hv.
    destruct Hv as [-> | [-> | [(-> & Hc) | [(-> & Hc) | (-> & Hc)]]]].
    + destruct (P1 eq_refl) as (u & Hu & E). exists u. split; [|exact E].
      auto.
    + destruct (P2 eq_refl) as (u & Hu & E). exists u. split; [|exact E].
      auto.
    + destruct (P3 (proj2 (Hcond a) Hc)) as (u & Hu & E).
      exists u. split; [|exact E]. auto.
    + destruct (P4 (proj2 (Hcond b) Hc)) as (u & Hu & E).
      exists u. split; [|exact E]. auto.
    + destruct (P5 (proj2 (Hcond c) Hc)) as (u & Hu & E).
      exists u. split; [|exact E]. auto.
  - assert (List.length s1 = 1%nat) by reflexivity. lia.
Qed.

Lemma plotted_positions (points : Triangle) (xs : list number) :
  map x (map (fun xc => {| x := xc; y := triangleValue xc points |}) xs) = xs.
Proof. rewrite map_map. simpl. apply map_id. Qed.

Lemma increasing_hd (l : list point) (q d : point) :
  increasing l -> In q l -> x (hd d l) <= x q.
Proof.
  unfold increasing. intros Hl Hq. destruct Hl as [|p l Hl Hp]; [contradiction|].
  simpl. destruct Hq as [<- | Hq]; [lra|].
  rewrite Forall_forall in Hp. specialize (Hp q Hq). lra.
Qed.

Lemma increasing_last (l : list point) (q d : point) :
  increasing l -> In q l -> x q <= x (last l d).
Proof.
  unfold increasing. intro Hl. revert q.
  induction Hl as [|p l Hl IH Hp]; intros q Hq; [contradiction|].
  destruct l as [|p' l].
  - destruct Hq as [<- | []]. simpl. lra.
  - change (last (p :: p' :: l) d) with (last (p' :: l) d).
    destruct Hq as [<- | Hq]; [|now apply IH].
    assert (x p' <= x (last (p' :: l) d)) by (apply IH; now left).
    inversion Hp; subst. lra.
Qed.

Lemma hd_In (l : list point) (d : point) : l <> [] -> In (hd d l) l.
Proof. destruct l; [congruence | intros _; now left]. Qed.

Lemma last_In (l : list point) (d : point) : l <> [] -> In (last l d) l.
Proof.
  induction l as [|p l IH]; [congruence|]. intros _.
  destruct l as [|p' l]; [now left|].
  right. apply IH. discriminate.
Qed.

Lemma generateMfPoints_facts (points : Triangle) (minX maxX : number) :
  exists pts,
    generateMfPoints points minX maxX = Ok pts /\
    increasing pts /\
    Forall (fun p => triangleMf (x p) points = Ok (y p)) pts /\
    (forall p, In p pts -> isCoordinate points minX maxX (x p)) /\
    (forall v, isCoordinate points minX maxX v ->
               exists p, In p pts /\ x p == v) /\
    (1 <= List.length pts <= 5)%nat.
Proof.
  destruct (generateMfPoints_value points minX maxX)
    as (xs & Hv & Hd & Hin & Hout & Hlen).
  eexists. split; [exact Hv|]. split; [|split; [|split; [|split]]].
  - apply sort_increasing. now rewrite plotted_positions.
  - apply Forall_forall. intros p Hp. apply sort_In in Hp.
    apply in_map_iff in Hp as (xc & <- & _). simpl. apply triangleMf_value.
  - intros p Hp. apply sort_In in Hp.
    apply in_map_iff in Hp as (xc & <- & Hxc). simpl. now apply Hin.
  - intros v Hc. destruct (Hout v Hc) as (u & Hu & E).
    exists {| x := u; y := triangleValue u points |}. split; [|exact E].
    apply sort_In, in_map_iff. now exists u.
  - now rewrite sort_length, length_map.
Qed.

(** X12: [generateMfPoints] returns its points in strictly increasing
    order of x, so no x occurs twice, and every point lies on the
    membership curve: its y is [triangleMf] of its x. *)
Theorem generateMfPoints_sorted_on_curve (points : Triangle)
    (minX maxX : number) :
  exists pts,
    generateMfPoints points minX maxX = Ok pts /\
    increasing pts /\
    Forall (fun p => triangleMf (x p) points = Ok (y p)) pts.
Proof.
  destruct (generateMfPoints_facts points minX maxX)
    as (pts & Hv & Hinc & Hcurve & _).
  exists pts. auto.
Qed.

(** X13: the x-coordinates plotted by [generateMfPoints] are exactly the
    two ends of the domain and those corners of the triangle that lie in
    the domain: between one and five points. *)
Theorem generateMfPoints_coordinates (points : Triangle) (minX maxX : number) :
  exists pts,
    generateMfPoints points minX maxX = Ok pts /\
    (forall p, In p pts -> isCoordinate points minX maxX (x p)) /\
    (forall v, isCoordinate points minX maxX v ->
               exists p, In p pts /\ x p == v) /\
    (1 <= List.length pts <= 5)%nat.
Proof.
  destruct (generateMfPoints_facts points minX maxX)
    as (pts & Hv & _ & _ & Hin & Hout & Hlen).
  exists pts. auto.
Qed.

(** X14: when minX <= maxX, the plotted curve spans the domain exactly:
    every point lies in [minX, maxX], the first point is at minX and the
    last at maxX. *)
Theorem generateMfPoints_spans_domain (points : Triangle)
    (minX maxX : number) :
  minX <= maxX ->
  exists pts,
    generateMfPoints points minX maxX = Ok pts /\
    Forall (fun p => minX <= x p <= maxX) pts /\
    (forall d, x (hd d pts) == minX /\ x (last pts d) == maxX).
Proof.
  intro Hdom.
  destruct (generateMfPoints_facts points minX maxX)
    as (pts & Hv & Hinc & _ & Hin & Hout & Hlen).
  exists pts. split; [exact Hv|].
  assert (Hrange : forall p, In p pts -> minX <= x p <= maxX).
  { intros p Hp. specialize (Hin p Hp). destruct points as [[a b] c].
    unfold isCoordinate in Hin.
    destruct Hin as [-> | [-> | [(-> & H) | [(-> & H) | (-> & H)]]]]; lra. }
  split; [now apply Forall_forall|].
  intro d.
  assert (Hne : pts <> []) by (destruct pts; [simpl in Hlen; lia | discriminate]).
  destruct (Hout minX) as (pmin & Hpmin & Emin).
  { destruct points as [[a b] c]. unfold isCoordinate. tauto. }
  destruct (Hout maxX) as (pmax & Hpmax & Emax).
  { destruct points as [[a b] c]. unfold isCoordinate. tauto. }
  pose proof (increasing_hd pts pmin d Hinc Hpmin).
  pose proof (increasing_last pts pmax d Hinc Hpmax).
  pose proof (Hrange _ (hd_In pts d Hne)).
  pose proof (Hrange _ (last_In pts d Hne)).
  split; lra.
Qed.

Lemma generateMfPoints_spans_domain_witness :
  exists pts,
    generateMfPoints (-100, 0, 100) 0 200 = Ok pts /\
    Forall (fun p => 0 <= x p <= 200) pts /\
    (forall d, x (hd d pts) == 0 /\ x (last pts d) == 200).
Proof. apply (generateMfPoints_spans_domain (-100, 0, 100) 0 200). lra. Defined.

(** ** The charts *)

Lemma lookup_keys {V : Type} (o : object V) (k : string) :
  In k (keys o) -> exists v, lookup o k = Some v.
Proof.
  induction o as [|[k' v'] o IH]; simpl; [contradiction|].
  intros [-> | Hin].
  - rewrite String.eqb_refl. now exists v'.
  - destruct (String.eqb k' k); [now exists v' | now apply IH].
Qed.


(** The curve datasets built by the callback of [createMfChart]. *)
Lemma curves_value (mfData : object Triangle) (domain : number * number)
    (colors : list string) (ks : list string) : forall i,
  incl ks (keys mfData) ->
  exists curves,
    mapiM (fun key i =>
             points <- get mfData key ;;
             pts <- generateMfPoints points (fst domain) (snd domain) ;;
             Ok {| label := key; data := pts;
                   borderColor :=
                     nth_error colors (i mod List.length colors) |})
          ks i = Ok curves /\
    map label curves = ks /\
    Forall (fun d =>
              exists points,
                lookup mfData (label d) = Some points /\
                generateMfPoints points (fst domain) (snd domain)
                = Ok (data d))
           curves /\
    (forall j d, nth_error curves j = Some d ->
       borderColor d = nth_error colors ((i + j) mod List.length colors)).
Proof.
  induction ks as [|k ks IH]; intros i Hincl.
  - exists []. simpl. repeat split; [constructor|].
    intros j d H. destruct j; discriminate.
  - destruct (lookup_keys mfData k (Hincl k (or_introl eq_refl)))
      as (points & Hl).
    destruct (generateMfPoints_facts points (fst domain) (snd domain))
      as (pts & Hg & _).
    destruct (IH (S i) (fun u Hu => Hincl u (or_intror Hu)))
      as (curves & Hm & Hlab & Hall & Hcol).
    eexists. cbn [mapiM]. rewrite (get_lookup _ _ _ Hl). cbn [bind].
    rewrite Hg. cbn [bind]. rewrite Hm. cbn [bind].
    split; [reflexivity|]. split; [simpl; now rewrite Hlab|]. split.
    + constructor; [|exact Hall]. exists points. simpl. auto.
    + intros [|j] d H; simpl in H.
      * injection H as <-. simpl. now rewrite Nat.add_0_r.
      * rewrite (Hcol j d H). f_equal. f_equal. lia.
Qed.



Lemma setData_spec (c : chart) (i : nat) (d : list point) :
  (i < List.length (datasets c))%nat ->
  exists c',
    setData c i d = Ok c' /\
    options c' = options c /\
    List.length (datasets c') = List.length (datasets c) /\
    forall j,
      nth_error (datasets c') j =
      if (j =? i)%nat
      then option_map (fun old => withData old d) (nth_error (datasets c) j)
      else nth_error (datasets c) j.
Proof.
  intro Hi. unfold setData.
  destruct (nth_error (datasets c) i) as [old|] eqn:E.
  2:{ apply nth_error_None in E. lia. }
  eexists. split; [reflexivity|]. cbn [options datasets].
  split; [reflexivity|].
  assert (Hlen : List.length (firstn i (datasets c)) = i)
    by (rewrite length_firstn; lia).
  split.
  - rewrite length_app, Hlen. cbn [List.length]. rewrite length_skipn. lia.
  - intro j. rewrite nth_error_app, Hlen.
    destruct (Nat.eqb_spec j i) as [-> | Hne].
    + rewrite Nat.ltb_irrefl, Nat.sub_diag, E. reflexivity.
    + destruct (Nat.ltb_spec j i) as [Hlt | Hge].
      * rewrite nth_error_firstn.
        destruct (Nat.ltb_spec j i); [reflexivity | lia].
      * destruct (j - i)%nat as [|k] eqn:Ek; [lia|].
        cbn [nth_error]. rewrite nth_error_skipn. f_equal. lia.
Qed.

Lemma setData_ok_length (c c' : chart) (i : nat) (d : list point) :
  setData c i d = Ok c' -> (i < List.length (datasets c))%nat.
Proof.
  unfold setData. destruct (nth_error (datasets c) i) eqn:E; [|discriminate].
  intros _. apply nth_error_Some. congruence.
Qed.

Lemma chart_ext (c c' : chart) :
  options c = options c' ->
  (forall j, nth_error (datasets c) j = nth_error (datasets c') j) ->
  c = c'.
Proof.
  destruct c, c'. simpl. intros -> H. f_equal. now apply nth_error_ext.
Qed.

Lemma setData_twice (c c1 : chart) (i : nat) (d1 d2 : list point) :
  setData c i d1 = Ok c1 -> setData c1 i d2 = setData c i d2.
Proof.
  intro H1. pose proof (setData_ok_length _ _ _ _ H1) as Hi.
  destruct (setData_spec c i d1 Hi) as (c1' & E1 & O1 & L1 & N1).
  rewrite H1 in E1. injection E1 as <-.
  destruct (setData_spec c i d2 Hi) as (c2 & E2 & O2 & L2 & N2).
  assert (Hi1 : (i < List.length (datasets c1))%nat) by lia.
  destruct (setData_spec c1 i d2 Hi1) as (c2' & E2' & O2' & L2' & N2').
  rewrite E2, E2'. f_equal. apply chart_ext; [congruence|].
  intro j. rewrite N2', N2, N1.
  destruct (Nat.eqb_spec j i); [|reflexivity].
  now destruct (nth_error (datasets c) j).
Qed.

Lemma setData_twice_across (c ca c1 : chart) (i j : nat)
    (d1 e1 d2 e2 : list point) :
  i <> j ->
  setData c i d1 = Ok ca -> setData ca j e1 = Ok c1 ->
  (cb <- setData c1 i d2 ;; setData cb j e2)
  = (cb <- setData c i d2 ;; setData cb j e2).
Proof.
  intros Hij Ha H1.
  pose proof (setData_ok_length _ _ _ _ Ha) as Hi.
  pose proof (setData_ok_length _ _ _ _ H1) as Hj.
  destruct (setData_spec c i d1 Hi) as (ca' & Ea & Oa & La & Na).
  rewrite Ha in Ea. injection Ea as <-.
  destruct (setData_spec ca j e1 Hj) as (c1' & E1 & O1 & L1 & N1).
  rewrite H1 in E1. injection E1 as <-.
  destruct (setData_spec c1 i d2 ltac:(lia)) as (p & Ep & Op & Lp & Np).
  destruct (setData_spec p j e2 ltac:(lia)) as (p2 & Ep2 & Op2 & Lp2 & Np2).
  destruct (setData_spec c i d2 Hi) as (q & Eq & Oq & Lq & Nq).
  destruct (setData_spec q j e2 ltac:(lia)) as (q2 & Eq2 & Oq2 & Lq2 & Nq2).
  rewrite Ep, Eq. cbn [bind]. rewrite Ep2, Eq2. f_equal.
  apply chart_ext; [congruence|].
  intro k. rewrite Np2, Np, N1, Na, Nq2, Nq.
  destruct (Nat.eqb_spec k j), (Nat.eqb_spec k i); try lia; try reflexivity;
    now destruct (nth_error (datasets c) k).
Qed.

Lemma bind_assoc {A B C : Type} (m : result A) (f : A -> result B)
    (g : B -> result C) :
  (b <- (a <- m ;; f a) ;; g b) = (a <- m ;; b <- f a ;; g b).
Proof. now destruct m. Qed.

(** X17: the charts after [updateCharts] depend on the latest values
    only: drawing a second time gives the same charts as drawing the
    second values on the charts as they were before the first drawing. *)
Theorem updateCharts_last_write (c c1 : charts)
    (d1 g1 o1 d2 g2 o2 : number) (p1 p2 : list point) :
  updateCharts c d1 g1 p1 o1 = Ok c1 ->
  updateCharts c1 d2 g2 p2 o2 = updateCharts c d2 g2 p2 o2.
Proof.
  unfold updateCharts. intro H.
  destruct (setData (dirtChart c) 3 (markerLine d1)) as [dc|] eqn:Ed;
    [|discriminate].
  destruct (setData (greaseChart c) 3 (markerLine g1)) as [gc|] eqn:Eg;
    [|discriminate].
  destruct (setData (resultChart c) 0 p1) as [ra|] eqn:Ea; [|discriminate].
  cbn [bind] in H.
  destruct (setData ra 1 (markerLine o1)) as [rc|] eqn:Er; [|discriminate].
  cbn [bind] in H. injection H as <-.
  cbn [dirtChart greaseChart timeChart resultChart].
  rewrite (setData_twice _ _ _ _ (markerLine d2) Ed).
  rewrite (setData_twice _ _ _ _ (markerLine g2) Eg).
  destruct (setData (dirtChart c) 3 (markerLine d2)); [|reflexivity].
  destruct (setData (greaseChart c) 3 (markerLine g2)); [|reflexivity].
  cbn [bind].
  pose proof (setData_twice_across _ _ _ 0%nat 1%nat p1 (markerLine o1)
                p2 (markerLine o2) ltac:(lia) Ea Er) as Hr.
  rewrite <- !bind_assoc. now rewrite Hr.
Qed.

Lemma updateCharts_last_write_witness :
  exists c c1,
    createCharts = Ok c /\
    updateCharts c 10 20 [] 30 = Ok c1 /\
    updateCharts c1 50 60 [] 40 = updateCharts c 50 60 [] 40.
Proof.
  destruct createCharts as [c|] eqn:Ec; [|vm_compute in Ec; discriminate].
  exists c. destruct (updateCharts c 10 20 [] 30) as [c1|] eqn:E1.
  - exists c1. split; [reflexivity|]. split; [reflexivity|].
    apply (updateCharts_last_write c c1 10 20 30 50 60 40 [] [] E1).
  - exfalso. vm_compute in Ec. injection Ec as <-.
    vm_compute in E1. discriminate.
Defined.

(** X18: [update] writes its line marker into dataset number 3.  On a
    chart made by [createMfChart] that is the 'Current Value' dataset
    exactly when the variable has three terms, and then the curves stay
    as they are; with more terms the write lands on the curve of one of
    the terms and 'Current Value', further on, stays empty; with fewer
    terms there is no such dataset and the write fails. *)
Theorem marker_write_meets_current_value (mfData : object Triangle)
    (domain : number * number) (colors : list string) (d : list point) :
  exists c,
    createMfChart mfData domain colors = Ok c /\
    (List.length (keys mfData) = 3%nat ->
     exists c',
       setData c 3 d = Ok c' /\
       firstn 3 (datasets c') = firstn 3 (datasets c) /\
       skipn 3 (datasets c')
       = [ {| label := "Current Value"; data := d;
              borderColor := Some "#ff0000" |} ]) /\
    (3 < List.length (keys mfData) ->
     exists c' old,
       setData c 3 d = Ok c' /\
       nth_error (datasets c) 3 = Some old /\
       In (label old) (keys mfData) /\
       nth_error (datasets c') 3 = Some (withData old d) /\
       skipn 4 (datasets c') = skipn 4 (datasets c) /\
       In {| label := "Current Value"; data := [];
             borderColor := Some "#ff0000" |}
          (skipn 4 (datasets c')))%nat /\
    (List.length (keys mfData) < 3 ->
     setData c 3 d = Err (UndefinedProperty "data"))%nat.
Proof.
  destruct (curves_value mfData domain colors (keys mfData) 0%nat
              (incl_refl _)) as (curves & Hm & Hlab & _).
  eexists. unfold createMfChart. rewrite Hm. cbn [bind].
  split; [reflexivity|].
  rewrite <- Hlab, length_map. unfold setData. cbn [datasets options].
  split; [|split]; intro Hlen.
  - destruct curves as [|c1 [|c2 [|c3 [|c4 curves]]]]; try discriminate.
    eexists. split; [reflexivity|]. split; reflexivity.
  - destruct curves as [|c1 [|c2 [|c3 [|c4 curves]]]]; simpl in Hlen; try lia.
    do 2 eexists. split; [reflexivity|]. split; [reflexivity|].
    split; [simpl; tauto|]. split; [reflexivity|]. split; [reflexivity|].
    cbn [datasets app firstn skipn]. apply in_or_app. right. now left.
  - destruct curves as [|c1 [|c2 [|c3 curves]]]; simpl in Hlen; try lia;
      reflexivity.
Qed.

Lemma marker_write_meets_current_value_witness :
  exists c c',
    createMfChart dirtMf (0, 200) lineColors = Ok c /\
    setData c 3 (markerLine 42) = Ok c' /\
    firstn 3 (datasets c') = firstn 3 (datasets c) /\
    skipn 3 (datasets c')
    = [ {| label := "Current Value"; data := markerLine 42;
           borderColor := Some "#ff0000" |} ].
Proof.
  destruct (marker_write_meets_current_value dirtMf (0, 200) lineColors
              (markerLine 42)) as (c & Hc & H3 & _).
  destruct (H3 eq_refl) as (c' & Hs & Hf & Hk).
  exists c, c'. auto.
Defined.

Lemma aggregatedDegree_le_one (act : object number) (t : number) :
  aggregatedDegree act t <= 1.
Proof.
  unfold aggregatedDegree.
  destruct (runningMax_spec (clippedValues act t) 0) as (_ & _ & [E | Hin]).
  - rewrite E. lra.
  - unfold clippedValues in *.
    apply in_map_iff in Hin as ([term points] & <- & _).
    simpl. destruct (lookup act term) as [a|]; [|lra].
    pose proof (Q.le_min_r a (triangleValue t points)).
    pose proof (triangleValue_range t points). lra.
Qed.

(** X19: on the charts as created, [update] and its drawing never fail:
    the markers of the two inputs land in the 'Current Value' datasets,
    the membership curves and the time chart stay as created, and the
    result chart receives the aggregated surface and the centroid marker,
    all of whose points lie inside the ranges of its axes. *)
Theorem updateAndDraw_on_created_charts (fuel : nat)
    (dirtValue greaseValue : number) :
  (122 <= fuel)%nat ->
  exists c r c',
    createCharts = Ok c /\
    updateAndDraw fuel c dirtValue greaseValue = Ok (r, c') /\
    update fuel dirtValue greaseValue = Ok r /\
    firstn 3 (datasets (dirtChart c')) = firstn 3 (datasets (dirtChart c)) /\
    skipn 3 (datasets (dirtChart c'))
    = [ {| label := "Current Value"; data := markerLine dirtValue;
           borderColor := Some "#ff0000" |} ] /\
    firstn 3 (datasets (greaseChart c'))
    = firstn 3 (datasets (greaseChart c)) /\
    skipn 3 (datasets (greaseChart c'))
    = [ {| label := "Current Value"; data := markerLine greaseValue;
           borderColor := Some "#ff0000" |} ] /\
    timeChart c' = timeChart c /\
    map label (datasets (resultChart c'))
    = map label (datasets (resultChart c)) /\
    map data (datasets (resultChart c'))
    = [aggregatedPoints r; markerLine (cog r)] /\
    Forall (fun d =>
              Forall (fun p =>
                        xMin (options (resultChart c')) <= x p
                          <= xMax (options (resultChart c')) /\
                        yMin (options (resultChart c')) <= y p
                          <= yMax (options (resultChart c')))
                     (data d))
           (datasets (resultChart c')).
Proof.
  intro Hfuel.
  destruct createCharts as [c|] eqn:Ec; [|vm_compute in Ec; discriminate].
  vm_compute in Ec. injection Ec as <-.
  eexists. exists (inferenceOf dirtValue greaseValue). eexists.
  split; [reflexivity|].
  unfold updateAndDraw. rewrite (update_value fuel _ _ Hfuel). cbn [bind].
  split; [reflexivity|]. split; [reflexivity|].
  do 7 (split; [reflexivity|]).
  cbn [resultChart datasets options xMin xMax yMin yMax].
  assert (H11 : 0 <= 1.1 /\ 1 <= 1.1)
    by (split; apply Qle_bool_iff; reflexivity).
  pose proof (centroid_bounds 0 60
                (surfaceOf
                   (aggregatedDegree
                      (activationOf (degreesOf dirtMf dirtValue)
                                    (degreesOf greaseMf greaseValue)))
                   referenceTimes)) as Hcog.
  assert (Hsurf :
    Forall (fun p => (0 <= x p <= 60) /\ 0 <= y p <= 1)
           (aggregatedPoints (inferenceOf dirtValue greaseValue))).
  { cbn [inferenceOf aggregatedPoints]. unfold surfaceOf.
    apply Forall_map, Forall_forall. intros t Ht. simpl.
    split; [exact (referenceTimes_range t Ht)|].
    split; [apply aggregatedDegree_nonneg | apply aggregatedDegree_le_one]. }
  apply Forall_cons; [|apply Forall_cons; [|apply Forall_nil]];
    cbn [data withData].
  - revert Hsurf. apply Forall_impl. intros p Hp. simpl. lra.
  - assert (Hc : 0 <= cog (inferenceOf dirtValue greaseValue) <= 60).
    { cbn [inferenceOf cog]. apply Hcog; [lra|].
      revert Hsurf. cbn [inferenceOf aggregatedPoints].
      apply Forall_impl. intros p Hp. lra. }
    unfold markerLine.
    apply Forall_cons; [|apply Forall_cons; [|apply Forall_nil]];
      cbn [x y]; lra.
Qed.

Lemma updateAndDraw_on_created_charts_witness :
  exists c r c',
    createCharts = Ok c /\
    updateAndDraw 122 c 80 120 = Ok (r, c') /\
    skipn 3 (datasets (dirtChart c'))
    = [ {| label := "Current Value"; data := markerLine 80;
           borderColor := Some "#ff0000" |} ] /\
    map data (datasets (resultChart c'))
    = [aggregatedPoints r; markerLine (cog r)].
Proof.
  destruct (updateAndDraw_on_created_charts 122 80 120 (le_n 122))
    as (c & r & c' & H).
  exists c, r, c'. tauto.
Defined.
